(** * siptools.mdcreator: metadata references and deduplicating writes

    A shallow embedding of [siptools/mdcreator.py]: the section creator
    ([MetsSectionCreator]), the line-delimited JSON reference index it
    maintains ([write_references]) and the read path
    ([read_md_references], [get_md_references]).

    Python dictionaries are finite maps ([gmap]), [set] is [gset], the
    workspace directory is a record of finite maps from file names to
    file contents, and the exceptions the source can raise are an
    explicit error monad. *)

From stdpp Require Import base option list gmap sets strings pretty.
From stdpp Require Import sorting.
From Stdlib Require Import ZArith Ascii.
From Stdlib Require OrderedTypeEx.

Set Warnings "-register-all".

Local Open Scope string_scope.
Local Open Scope list_scope.

(** ** Python values *)

(** Exceptions of the modelled fragment. *)
Inductive pyerr := KeyError | IndexError | IOError.

Inductive result (A : Type) :=
  | Ok (a : A)
  | Raise (e : pyerr).
Arguments Ok {A} a.
Arguments Raise {A} e.

Global Instance result_ret : MRet result := λ A a, Ok a.
Global Instance result_bind : MBind result := λ A B k r,
  match r with
  | Ok a => k a
  | Raise e => Raise e
  end.

(** The [stream] argument of [add_reference]: [None], an [int] index, or
    a text key (the form stream indices have once they went through
    JSON).  The same values are the keys of an entry's [streams] dict. *)
Inductive pystream :=
  | StreamNone
  | StreamInt (n : Z)
  | StreamStr (s : string).

Global Instance pystream_eq_dec : EqDecision pystream.
Proof. solve_decision. Defined.

Global Instance pystream_countable : Countable pystream.
Proof.
  refine (inj_countable'
    (λ k, match k with
          | StreamNone => inl ()
          | StreamInt n => inr (inl n)
          | StreamStr s => inr (inr s)
          end)
    (λ x, match x with
          | inl _ => StreamNone
          | inr (inl n) => StreamInt n
          | inr (inr s) => StreamStr s
          end) _).
  by intros [].
Defined.

(** Truth value of [if ref['stream']:]. *)
Definition stream_truthy (s : pystream) : bool :=
  match s with
  | StreamNone => false
  | StreamInt n => negb (n =? 0)%Z
  | StreamStr s => negb (String.eqb s "")
  end.

(** The [filepath] and [directory] arguments: bytes, text or [None]. *)
Inductive pypath :=
  | PathNone
  | PathText (s : string)
  | PathBytes (b : list Byte.byte).

Definition path_truthy (p : pypath) : bool :=
  match p with
  | PathNone => false
  | PathText s => negb (String.eqb s "")
  | PathBytes b => match b with [] => false | _ => true end
  end.

(** ** XML elements (lxml.etree) *)

Inductive Element :=
  | Elem (tag : string) (attrib : list (string * string)) (text : string)
         (children : list Element).

(** [parent.append(child)] *)
Definition append (parent child : Element) : Element :=
  match parent with
  | Elem t a x cs => Elem t a x (cs ++ [child])
  end.

(** ** Functions of other libraries and of modules outside this file

    [mdcreator.py] calls into [os.path], [sys], the [mets] and
    [xml_helpers] libraries and [siptools.utils]; they are parameters of
    the development. *)
Class Externals := {
  (** [bytes.decode(sys.getfilesystemencoding())] *)
  fs_decode : list Byte.byte → string;
  (** [os.path.normpath] *)
  normpath : string → string;
  (** [siptools.utils.generate_digest] *)
  generate_digest : Element → string;
  (** [siptools.utils.encode_path] *)
  encode_path : string → string;
  (** constructors of the [mets] library *)
  mets_xmldata : Element;
  mets_mdwrap : string → string → option string → Element;
  mets_digiprovmd : string → Element;
  mets_techmd : string → Element;
  mets_amdsec : Element;
  mets_mets : Element;
  (** [xml_helpers.utils.serialize] *)
  serialize : Element → string;
  (** the scraper's metadata dictionaries: truth value and [json.dump] *)
  metadata_dict : Type;
  dict_truthy : metadata_dict → bool;
  json_dump_dict : metadata_dict → string;
}.

(** [os.path.join(a, b)] of [posixpath]. *)
Definition os_path_join (a b : string) : string :=
  if String.prefix "/" b then b
  else if String.eqb a "" then b
  else if String.eqb (String.substring (String.length a - 1) 1 a) "/" then a +:+ b
  else a +:+ "/" +:+ b.

(** ** The reference index: entries in memory and on disk *)

(** An entry as the code holds it: the dict
    [{path_type: .., streams: {..}, md_ids: [..]}]. *)
Record entry := Entry {
  path_type : string;
  streams : gmap pystream (list string);
  md_ids : list string;
}.

(** The same entry as JSON text: an object's members in text order; the
    member names of [streams] are strings. *)
Record jentry := JEntry {
  j_path_type : string;
  j_streams : list (string * list string);
  j_md_ids : list string;
}.

(** One line of the index file: a JSON object from paths to entries. *)
Definition jline : Type := list (string * jentry).

(** [json.dump] turns the keys of a dict into strings. *)
Definition json_key (k : pystream) : string :=
  match k with
  | StreamNone => "null"
  | StreamInt n => pretty n
  | StreamStr s => s
  end.

Definition json_dump_entry (e : entry) : jentry :=
  {| j_path_type := path_type e;
     j_streams := (λ kv, (json_key kv.1, kv.2)) <$> map_to_list (streams e);
     j_md_ids := md_ids e |}.

(** [json.loads]: the last member wins when a name is repeated. *)
Definition json_loads_entry (j : jentry) : entry :=
  {| path_type := j_path_type j;
     streams := foldl (λ m kv, <[StreamStr kv.1 := kv.2]> m) ∅ (j_streams j);
     md_ids := j_md_ids j |}.

Definition json_loads (l : jline) : gmap string entry :=
  foldl (λ m kv, <[kv.1 := json_loads_entry kv.2]> m) ∅ l.

(** [json.dump(path, out_file)] for [path = {ref_path: entry}]. *)
Definition json_dump_path (p : string * entry) : jline :=
  [(p.1, json_dump_entry p.2)].

(** ** The workspace directory *)

(** Changes made to the directory, in the order they happen. *)
Inductive fs_event :=
  | EvCreate (name : string)
  | EvAppend (name : string) (line : jline)
  | EvRename (src dst : string)
  | EvWrite (name : string) (data : string).

(** Reference index files hold lines of JSON; metadata files and scraper
    files hold serialized data.  [stdout] collects what is printed. *)
Record world := World {
  ref_files : gmap string (list jline);
  md_files : gmap string string;
  stdout : list string;
  events : list fs_event;
}.

Definition empty_world : world :=
  {| ref_files := ∅; md_files := ∅; stdout := []; events := [] |}.

(** [open(name, 'at')] without a write: the file is created when it is
    missing. *)
Definition open_append (name : string) (w : world) : world :=
  match ref_files w !! name with
  | Some _ => w
  | None =>
      {| ref_files := <[name := []]> (ref_files w);
         md_files := md_files w;
         stdout := stdout w;
         events := events w ++ [EvCreate name] |}
  end.

(** [with open(name, 'at') as f: json.dump(..., f); f.write('\n')], or a
    [write(line)] to a file opened with ['at']. *)
Definition append_line (name : string) (line : jline) (w : world) : world :=
  {| ref_files := <[name := default [] (ref_files w !! name) ++ [line]]> (ref_files w);
     md_files := md_files w;
     stdout := stdout w;
     events := events w ++ [EvAppend name line] |}.

(** [os.rename(src, dst)] *)
Definition os_rename (src dst : string) (w : world) : result world :=
  match ref_files w !! src with
  | Some c =>
      Ok {| ref_files := <[dst := c]> (delete src (ref_files w));
            md_files := md_files w;
            stdout := stdout w;
            events := events w ++ [EvRename src dst] |}
  | None => Raise IOError
  end.

(** [with open(name, 'wb+') as f: f.write(data)] *)
Definition write_file (name data : string) (w : world) : world :=
  {| ref_files := ref_files w;
     md_files := <[name := data]> (md_files w);
     stdout := stdout w;
     events := events w ++ [EvWrite name data] |}.

Definition print (s : string) (w : world) : world :=
  {| ref_files := ref_files w;
     md_files := md_files w;
     stdout := stdout w ++ [s];
     events := events w |}.

(** ** Helpers of [mdcreator.py] *)

Section mdcreator.
Context `{!Externals}.

Definition _parse_refs (ref : pypath) : string :=
  match ref with
  | PathBytes b => fs_decode b
  | PathText s => s
  | PathNone => ""
  end.

(** [list(set(reference_list) | {reference})]: the order of the result
    is the iteration order of the set. *)
Definition _uniques_list (reference_list : list string) (reference : string)
  : list string :=
  elements ({[ reference ]} ∪ list_to_set reference_list : gset string).

(** ** [MetsSectionCreator] *)

(** The dict appended by [add_reference]. *)
Record reference := Reference {
  ref_md_id : string;
  ref_stream : pystream;
  ref_path : pypath;
  ref_path_type : string;
}.

(** The tuple appended by [add_md]. *)
Record md_element := MdElement {
  me_metadata : Element;
  me_filename : pypath;
  me_stream : pystream;
  me_directory : pypath;
  me_given_metadata_dict : option metadata_dict;
}.

Record MetsSectionCreator := Creator {
  workspace : string;
  md_elements : list md_element;
  references : list reference;
}.

Definition init (workspace : string) : MetsSectionCreator :=
  {| workspace := workspace; md_elements := []; references := [] |}.

Definition add_reference (self : MetsSectionCreator) (md_id : string)
    (filepath : pypath) (stream : pystream) (directory : pypath)
  : MetsSectionCreator :=
  let r :=
    if path_truthy directory
    then {| ref_md_id := md_id; ref_stream := stream;
            ref_path := directory; ref_path_type := "directory" |}
    else {| ref_md_id := md_id; ref_stream := stream;
            ref_path := filepath; ref_path_type := "file" |} in
  {| workspace := workspace self;
     md_elements := md_elements self;
     references := references self ++ [r] |}.

Definition add_md (self : MetsSectionCreator) (metadata : Element)
    (filename : pypath) (stream : pystream) (directory : pypath)
    (given_metadata_dict : option metadata_dict) : MetsSectionCreator :=
  {| workspace := workspace self;
     md_elements := md_elements self ++
       [ {| me_metadata := metadata; me_filename := filename;
            me_stream := stream; me_directory := directory;
            me_given_metadata_dict := given_metadata_dict |} ];
     references := references self |}.

(** *** [write_references] *)

(** The first line of the file that has the key. *)
Fixpoint _get_path_from_reference_file (lines : list jline) (ref_path : string)
  : option entry :=
  match lines with
  | [] => None
  | line :: rest =>
      match json_loads line !! ref_path with
      | Some e => Some e
      | None => _get_path_from_reference_file rest ref_path
      end
  end.

Definition _setup_new_path (path_type : string) : entry :=
  {| path_type := path_type; streams := ∅; md_ids := [] |}.

(** The locals of the loop over [self.references]: [paths] is a list of
    one-key dicts [{ref_path: path}], [path_map] gives the position of a
    path in it. *)
Record refs_state := RefsState {
  path_map : gmap string nat;
  paths : list (string * entry);
  paths_updated : gset string;
}.

Definition refs_init : refs_state :=
  {| path_map := ∅; paths := []; paths_updated := ∅ |}.

(** [paths[path_map[ref_path]][ref_path]] *)
Definition lookup_path (st : refs_state) (ref_path : string) : result entry :=
  match path_map st !! ref_path with
  | None => Raise KeyError
  | Some i =>
      match paths st !! i with
      | None => Raise IndexError
      | Some (k, e) => if decide (k = ref_path) then Ok e else Raise KeyError
      end
  end.

(** Assignment through [paths[path_map[ref_path]][ref_path]].  The local
    [path] of the loop is this very object (Python dicts are shared, not
    copied), so a change made through [path] is a change at this position
    of [paths]. *)
Definition store_path (st : refs_state) (ref_path : string) (e : entry)
  : result refs_state :=
  match path_map st !! ref_path with
  | None => Raise KeyError
  | Some i =>
      match paths st !! i with
      | None => Raise IndexError
      | Some (k, _) =>
          if decide (k = ref_path) then
            Ok {| path_map := path_map st;
                  paths := <[i := (ref_path, e)]> (paths st);
                  paths_updated := paths_updated st |}
          else Raise KeyError
      end
  end.

(** The [try ... except KeyError] that finds or sets up the entry of
    [ref_path]; [file_lines] is the content of the reference file, [None]
    when [file_exists] is false. *)
Definition find_path (file_lines : option (list jline)) (st : refs_state)
    (ref_path path_type : string) : result (refs_state * entry) :=
  match lookup_path st ref_path with
  | Ok path => Ok (st, path)
  | Raise KeyError =>
      let found :=
        match file_lines with
        | Some lines => _get_path_from_reference_file lines ref_path
        | None => None
        end in
      let updated :=
        match found with
        | Some _ => {[ ref_path ]} ∪ paths_updated st
        | None => paths_updated st
        end in
      let path := default (_setup_new_path path_type) found in
      Ok ({| path_map := <[ref_path := (length (paths st ++ [(ref_path, path)]) - 1)%nat]>
                           (path_map st);
             paths := paths st ++ [(ref_path, path)];
             paths_updated := updated |}, path)
  | Raise e => Raise e
  end.

(** One iteration of [for ref in self.references]. *)
Definition add_ref (file_lines : option (list jline)) (st : refs_state)
    (ref : reference) : result refs_state :=
  let ref_path := _parse_refs (ref_path ref) in
  '(st, path) ← find_path file_lines st ref_path (ref_path_type ref);
  if stream_truthy (ref_stream ref) then
    let stream_ids :=
      match streams path !! ref_stream ref with
      | Some ids => _uniques_list ids (ref_md_id ref)
      | None => [ref_md_id ref]
      end in
    store_path st ref_path
      {| path_type := path_type path;
         streams := <[ref_stream ref := stream_ids]> (streams path);
         md_ids := md_ids path |}
  else
    let ids := _uniques_list (md_ids path) (ref_md_id ref) in
    store_path st ref_path
      {| path_type := path_type path;
         streams := streams path;
         md_ids := ids |}.

Fixpoint add_refs (file_lines : option (list jline)) (st : refs_state)
    (refs : list reference) : result refs_state :=
  match refs with
  | [] => Ok st
  | ref :: rest =>
      st' ← add_ref file_lines st ref;
      add_refs file_lines st' rest
  end.

(** [for key in existing_json_data: if key not in paths_updated:
    out_file.write(line)] *)
Definition copy_line (tmp : string) (updated : gset string) (w : world)
    (line : jline) : world :=
  foldl (λ w key, if decide (key ∈ updated) then w else append_line tmp line w)
        w (elements (dom (json_loads line))).

Definition dump_paths (name : string) (ps : list (string * entry)) (w : world)
  : world :=
  foldl (λ w p, append_line name (json_dump_path p) w) w ps.

Definition write_references (self : MetsSectionCreator) (ref_file : string)
    (w : world) : result world :=
  let reference_file := os_path_join (workspace self) ref_file in
  let tmp := reference_file +:+ ".tmp" in
  (* file_exists, and what every later read of the file returns: nothing
     writes to reference_file before the loops below *)
  let file_lines := ref_files w !! reference_file in
  st ← add_refs file_lines refs_init (references self);
  w ← (if decide (paths_updated st ≠ ∅) then
         match file_lines with
         | None => Raise IOError
         | Some lines =>
             let w := open_append tmp w in
             let w := foldl (copy_line tmp (paths_updated st)) w lines in
             Ok (dump_paths tmp (paths st) w)
         end
       else Ok (dump_paths reference_file (paths st) w));
  match ref_files w !! tmp with
  | Some _ => os_rename tmp reference_file w
  | None => Ok w
  end.

(** *** [write_md], [write_dict] and [write] *)

Definition write_md (self : MetsSectionCreator) (metadata : Element)
    (mdtype mdtypeversion : string) (othermdtype section : option string)
    (to_stdout : bool) (w : world) : (string * string) * world :=
  let digest := generate_digest metadata in
  let suffix :=
    match othermdtype with
    | Some o => if String.eqb o "" then mdtype else o
    | None => mdtype
    end in
  let filename := encode_path (digest +:+ "-" +:+ suffix +:+ "-amd.xml") in
  let md_id := "_" +:+ digest in
  let filename := os_path_join (workspace self) filename in
  match md_files w !! filename with
  | Some _ => ((md_id, filename), w)
  | None =>
      let xmldata := append mets_xmldata metadata in
      let mdwrap := append (mets_mdwrap mdtype mdtypeversion othermdtype) xmldata in
      let amd :=
        if decide (section = Some "digiprovmd")
        then mets_digiprovmd md_id
        else mets_techmd md_id in
      let amd := append amd mdwrap in
      let amdsec := append mets_amdsec amd in
      let mets_ := append mets_mets amdsec in
      let w := write_file filename (serialize mets_) w in
      let w := if to_stdout then print (serialize mets_) w else w in
      let w := print ("Wrote lxml.etree " +:+ mdtype +:+
                      " administrative metadata to file " +:+ filename) w in
      ((md_id, filename), w)
  end.

(** [premis_amd_id[1:]] *)
Definition drop_first (s : string) : string :=
  match s with
  | EmptyString => EmptyString
  | String _ rest => rest
  end.

Definition write_dict (self : MetsSectionCreator)
    (file_metadata_dict : metadata_dict) (premis_amd_id : string) (w : world)
  : world :=
  let digest := drop_first premis_amd_id in
  let filename := encode_path (digest +:+ "-scraper.json") in
  let filename := os_path_join (workspace self) filename in
  match md_files w !! filename with
  | Some _ => w
  | None =>
      let w := write_file filename (json_dump_dict file_metadata_dict) w in
      print ("Wrote technical data to: " +:+ filename) w
  end.

Definition opt_dict_truthy (d : option metadata_dict) : bool :=
  match d with
  | Some d => dict_truthy d
  | None => false
  end.

(** One iteration of [for (metadata, filename, ...) in self.md_elements];
    [file_metadata_dict] is a local of [write] that the loop may rebind. *)
Definition write_element (mdtype mdtypeversion : string)
    (othermdtype section : option string) (to_stdout : bool)
    (acc : MetsSectionCreator * option metadata_dict * world) (el : md_element)
  : MetsSectionCreator * option metadata_dict * world :=
  let '(self, file_metadata_dict, w) := acc in
  let '((md_id, _), w) :=
    write_md self (me_metadata el) mdtype mdtypeversion othermdtype section
             to_stdout w in
  let file_metadata_dict :=
    if opt_dict_truthy (me_given_metadata_dict el)
    then me_given_metadata_dict el
    else file_metadata_dict in
  let w :=
    match file_metadata_dict, me_stream el with
    | Some d, StreamNone => if dict_truthy d then write_dict self d md_id w else w
    | _, _ => w
    end in
  (add_reference self md_id (me_filename el) (me_stream el) (me_directory el),
   file_metadata_dict, w).

Definition write (self : MetsSectionCreator) (mdtype mdtypeversion : string)
    (othermdtype section : option string) (to_stdout : bool)
    (file_metadata_dict : option metadata_dict) (ref_file : string) (w : world)
  : result (MetsSectionCreator * world) :=
  let '(self, _, w) :=
    foldl (write_element mdtype mdtypeversion othermdtype section to_stdout)
          (self, file_metadata_dict, w) (md_elements self) in
  w ← write_references self ref_file w;
  (* self.__init__(self.workspace) *)
  Ok (init (workspace self), w).

(** ** The read path *)

Definition read_md_references (workspace ref_file : string) (w : world)
  : option (gmap string entry) :=
  let reference_file := os_path_join workspace ref_file in
  match ref_files w !! reference_file with
  | Some lines =>
      (* references.update(json.loads(line)) *)
      Some (foldl (λ references line, json_loads line ∪ references) ∅ lines)
  | None => None
  end.

(** [refs_dict[key]] *)
Definition getitem {K V} `{Countable K} (d : gmap K V) (k : K) : result V :=
  match d !! k with
  | Some v => Ok v
  | None => Raise KeyError
  end.

(** The body of the [try] of [get_md_references]; the local [md_ids] is [ids], it starts as [[]]. *)
Definition filter_references (refs_dict : gmap string entry)
    (path : option string) (stream : pystream) (directory : option string)
  : result (list string) :=
  let ids : list string := [] in
  let directory_truthy :=
    match directory with
    | Some d => negb (String.eqb d "")
    | None => false
    end in
  match directory, path, stream with
  | None, None, StreamNone =>
      (* for ref_path in refs_dict: md_ids.extend(refs_dict[ref_path]['md_ids']) *)
      Ok (foldl (λ ids kv, ids ++ md_ids kv.2) ids (map_to_list refs_dict))
  | _, _, _ =>
      if directory_truthy then
        let directory := normpath (default "" directory) in
        e ← getitem refs_dict directory;
        Ok (md_ids e)
      else
        match stream with
        | StreamNone =>
            e ← match path with
                | Some p => getitem refs_dict p
                | None => Raise KeyError
                end;
            Ok (md_ids e)
        | _ =>
            md_ref ← match path with
                     | Some p => getitem refs_dict p
                     | None => Raise KeyError
                     end;
            (* for ref_stream in md_ref['streams']:
                 if ref_stream == stream: md_ids = md_ref['streams'][ref_stream] *)
            Ok (foldl (λ ids kv, if decide (kv.1 = stream) then kv.2 else ids)
                      ids (map_to_list (streams md_ref)))
        end
  end.

Definition get_md_references (refs_dict : option (gmap string entry))
    (path : option string) (stream : pystream) (directory : option string)
  : result (option (gset string)) :=
  match refs_dict with
  | None => Ok None
  | Some refs_dict =>
      ids ← match filter_references refs_dict path stream directory with
            | Ok ids => Ok ids
            | Raise KeyError => Ok []          (* except KeyError: pass *)
            | Raise e => Raise e
            end;
      Ok (Some (list_to_set ids))
  end.

End mdcreator.

(** ** Definitions used to state and to exercise the properties *)

(** A simple instance of the external functions, for evaluating the
    definitions on examples: the file system encoding is a one-byte
    encoding, the paths given are already normalised, the digest of an
    element is its tag. *)
Definition sample_externals : Externals := {|
  fs_decode := String.string_of_list_byte;
  normpath := λ s, s;
  generate_digest := λ e, match e with Elem t _ _ _ => t end;
  encode_path := λ s, s;
  mets_xmldata := Elem "mets:xmlData" [] "" [];
  mets_mdwrap := λ mdtype mdtypeversion othermdtype,
    Elem "mets:mdWrap" [("MDTYPE", mdtype); ("MDTYPEVERSION", mdtypeversion)] "" [];
  mets_digiprovmd := λ md_id, Elem "mets:digiprovMD" [("ID", md_id)] "" [];
  mets_techmd := λ md_id, Elem "mets:techMD" [("ID", md_id)] "" [];
  mets_amdsec := Elem "mets:amdSec" [] "" [];
  mets_mets := Elem "mets:mets" [] "" [];
  serialize := λ e, match e with Elem t _ _ _ => "<" +:+ t +:+ "/>" end;
  metadata_dict := string;
  dict_truthy := λ s, negb (String.eqb s "");
  json_dump_dict := λ s, s;
|}.

(** The union of [md_ids] over the entries whose [path_type] is [file]:
    what section 8 of the specification gives as the unfiltered result of
    the filter operation. *)
Definition file_only_union (refs : gmap string entry) : gset string :=
  list_to_set
    (mjoin (md_ids <$> filter (λ e, path_type e = "file") (map_to_list refs).*2)).

(** The format of the index file: every line is an object with exactly
    one member, a path and its entry. *)
Definition one_key (line : jline) : Prop := ∃ k je, line = [(k, je)].

Definition index_format (lines : list jline) : Prop := Forall one_key lines.

(** The paths that have a line in the file. *)
Definition index_keys (lines : list jline) : list string :=
  lines ≫= (λ line, line.*1).

(** A line none of whose keys is among [touched]. *)
Definition untouched (touched : gset string) (line : jline) : Prop :=
  dom (json_loads line) ## touched.

Global Instance untouched_dec touched line : Decision (untouched touched line).
Proof. unfold untouched. apply _. Defined.

(** What one reference does to the entry of its path: the two branches
    of [if ref['stream']] in [write_references]. *)
Definition update_entry (path : entry) (ref : reference) : entry :=
  if stream_truthy (ref_stream ref) then
    {| path_type := path_type path;
       streams := <[ref_stream ref :=
                     match streams path !! ref_stream ref with
                     | Some ids => _uniques_list ids (ref_md_id ref)
                     | None => [ref_md_id ref]
                     end]> (streams path);
       md_ids := md_ids path |}
  else
    {| path_type := path_type path;
       streams := streams path;
       md_ids := _uniques_list (md_ids path) (ref_md_id ref) |}.

(** No ID is listed twice in an entry. *)
Definition entry_nodup (e : entry) : Prop :=
  NoDup (md_ids e) ∧ map_Forall (λ _ ids, NoDup ids) (streams e).

Definition jentry_nodup (j : jentry) : Prop :=
  NoDup (j_md_ids j) ∧ Forall (λ kv, NoDup kv.2) (j_streams j).

(** Every line of every reference file of the workspace lists no ID
    twice. *)
Definition world_nodup (w : world) : Prop :=
  map_Forall (λ _ lines,
    Forall (λ line : jline, Forall (λ kv, jentry_nodup kv.2) line) lines)
    (ref_files w).

(** The key of a reference in the index. *)
Definition ref_key `{!Externals} (ref : reference) : string :=
  _parse_refs (ref_path ref).

(** The entry a path starts from in a batch: the one of the file when the
    file has one, a new one otherwise. *)
Definition initial_entry (file_lines : option (list jline)) (k path_type : string)
  : entry :=
  default (_setup_new_path path_type)
          (file_lines ≫= λ lines, _get_path_from_reference_file lines k).

(** [path_map] gives the positions of the keys of [paths]. *)
Definition state_ok (st : refs_state) : Prop :=
  ∀ k i, path_map st !! k = Some i ↔ ∃ e, paths st !! i = Some (k, e).

(** [paths_updated] holds the keys of [paths] that the file had. *)
Definition updated_ok (file_lines : option (list jline)) (st : refs_state) : Prop :=
  ∀ k, k ∈ paths_updated st ↔
       k ∈ (paths st).*1 ∧ k ∈ index_keys (default [] file_lines).

(** A reference to the path [k] without a stream. *)
Definition plain_ref `{!Externals} (k : string) (ref : reference) : Prop :=
  ref_key ref = k ∧ stream_truthy (ref_stream ref) = false.

(** The file after a flush for one path [k]: the lines of the other
    paths, and one last line for [k]. *)
Definition flushed (lines : list jline) (k : string) (e : entry) : list jline :=
  filter (untouched {[ k ]}) lines ++ [[(k, json_dump_entry e)]].

(** No ID is listed twice in a line, in the entries of the loop. *)
Definition line_nodup (line : jline) : Prop := Forall (λ kv, jentry_nodup kv.2) line.

Definition entries_nodup (st : refs_state) : Prop :=
  Forall (λ p, entry_nodup p.2) (paths st).

(** [add_reference(md_id, filepath)] for each ID of a list: references
    to one path, without a stream. *)
Definition add_references `{!Externals} (self : MetsSectionCreator)
    (filepath : pypath) (ids : list string) : MetsSectionCreator :=
  foldl (λ self md_id, add_reference self md_id filepath StreamNone PathNone)
        self ids.

(** A sequence of flushes: the IDs of each batch are added for
    [filepath] and written to [ref_file]. *)
Fixpoint flush_batches `{!Externals} (self : MetsSectionCreator)
    (filepath : pypath) (ref_file : string) (batches : list (list string))
    (w : world) : result (MetsSectionCreator * world) :=
  match batches with
  | [] => Ok (self, w)
  | ids :: rest =>
      '(self, w) ← write (add_references self filepath ids)
                         "type" "version" None None false None ref_file w;
      flush_batches self filepath ref_file rest w
  end.

(** What holds between two flushes: no temporary file, a well-formed
    index, and an entry for [k] in it that lists exactly the IDs [S]
    flushed so far (no entry when there are none). *)
Definition batch_inv (ws ref_file k : string) (S : gset string) (w : world) : Prop :=
  let reference_file := os_path_join ws ref_file in
  let e0 := initial_entry (ref_files w !! reference_file) k "file" in
  ref_files w !! (reference_file +:+ ".tmp") = None ∧
  index_format (default [] (ref_files w !! reference_file)) ∧
  list_to_set (md_ids e0) = S ∧
  (S ≠ ∅ → NoDup (md_ids e0) ∧
           ∃ refs, read_md_references ws ref_file w = Some refs ∧
                   refs !! k = Some e0).

(** What a lookup of the filter operation has no entry for: the directory
    it is given (looked up in normalised form), the path, or the stream
    of a path that is there. *)
Definition directory_falsy (directory : option string) : Prop :=
  directory = None ∨ directory = Some "".

Inductive no_entry `{!Externals} (refs : gmap string entry)
  : option string → pystream → option string → Prop :=
  | no_entry_directory path stream d :
      d ≠ "" → refs !! normpath d = None →
      no_entry refs path stream (Some d)
  | no_entry_path p stream directory :
      directory_falsy directory → refs !! p = None →
      no_entry refs (Some p) stream directory
  | no_entry_stream p e stream directory :
      directory_falsy directory → refs !! p = Some e →
      stream ≠ StreamNone → streams e !! stream = None →
      no_entry refs (Some p) stream directory.

(** A workspace whose index has one line, for [data/b.tif]. *)
Definition sample_world : world :=
  {| ref_files :=
       {[ "ws/refs.json" :=
            [[("data/b.tif",
               {| j_path_type := "file"; j_streams := []; j_md_ids := ["_old"] |})]] ]};
     md_files := ∅; stdout := []; events := [] |}.

(** A creator with two references, one to the path of the index. *)
Definition sample_creator : MetsSectionCreator :=
  @add_reference sample_externals
    (@add_reference sample_externals (init "ws")
       "_new" (PathText "data/b.tif") StreamNone PathNone)
    "_x" (PathText "data/c.tif") (StreamInt 2) PathNone.

(** The same workspace after an interrupted run: a temporary file was
    left next to the index. *)
Definition interrupted_world : world :=
  {| ref_files :=
       <[ "ws/refs.json.tmp" :=
            [[("data/z.tif",
               {| j_path_type := "file"; j_streams := []; j_md_ids := ["_z"] |})]] ]>
         (ref_files sample_world);
     md_files := ∅; stdout := []; events := [] |}.

(** A mapping with one directory entry. *)
Definition directory_refs : gmap string entry :=
  {[ "data/dir" := {| path_type := "directory"; streams := ∅; md_ids := ["_d"] |} ]}.

(** ** The digest of a metadata element *)

Module Digest.



(** Modelled from the spec: the canonical serialization that
    [generate_digest] hashes (section 4.1), which is not among the
    sources.  It is taken as a tree: the element with the attributes of
    every element in the one order a finite map of them has, whatever
    order they were given in. *)
Fixpoint canonical (e : Element) : Element :=
  match e with
  | Elem tag attrib text children =>
      Elem tag (map_to_list (list_to_map attrib : gmap string string)) text
           (canonical <$> children)
  end.

(** Modelled from the spec: [siptools.utils.generate_digest], which is not
    among the sources (its tests in [tests/utils_test.py] and its caller
    [write_md] are).  Section 4.1: a pure function of the element's
    logical content (tag names, attributes, order-independent, and text,
    recursively over children), a cryptographic hash over a canonical
    serialization.  [hash] stands for the hash of the serialization of a
    canonical tree; the digest in [test_create_techmdfile] is a string of
    32 hexadecimal digits. *)
Definition generate_digest (hash : Element → string) (e : Element) : string :=
  hash (canonical e).







End Digest.

(** ** The rest of [mdcreator.py] *)

(** Exceptions beyond those of the reference index. *)
Inductive pyexc :=
  | Builtin (e : pyerr)
  | TypeError
  | ValueError (message : string).

Inductive outcome (A : Type) :=
  | Returns (a : A)
  | Raises (e : pyexc).
Arguments Returns {A} a.
Arguments Raises {A} e.

(** The order [sorted] puts keys in: text by code units; across types
    the order of Python 2, [None] first, then numbers, then text. *)
Definition string_le (a b : string) : Prop := String.leb a b = true.

Global Instance string_le_dec : RelDecision string_le.
Proof. intros a b. unfold string_le. apply _. Defined.

Definition pystream_le (a b : pystream) : Prop :=
  match a, b with
  | StreamNone, _ => True
  | StreamInt _, StreamNone => False
  | StreamInt m, StreamInt n => (m ≤ n)%Z
  | StreamInt _, StreamStr _ => True
  | StreamStr _, StreamNone => False
  | StreamStr _, StreamInt _ => False
  | StreamStr s, StreamStr t => string_le s t
  end.

Global Instance pystream_le_dec : RelDecision pystream_le.
Proof. intros [| m | s] [| n | t]; simpl; apply _. Defined.

(** What [get_objectlist] returns: a list of paths or a list of stream
    keys. *)
Inductive objectlist :=
  | Files (l : list string)
  | Streams (l : list pystream).

Definition get_objectlist (refs_dict : option (gmap string entry))
    (file_path : option string) : outcome objectlist :=
  match file_path with
  | Some file_path =>
      match refs_dict with
      | None => Raises TypeError
      | Some refs_dict =>
          match refs_dict !! file_path with
          | None => Raises (Builtin KeyError)
          | Some e =>
              (* for stream in ...['streams']: objectset.add(stream) *)
              let objectset : gset pystream :=
                foldl (λ objectset kv, {[ kv.1 ]} ∪ objectset) ∅
                      (map_to_list (streams e)) in
              Returns (Streams (merge_sort pystream_le (elements objectset)))
          end
      end
  | None =>
      match refs_dict with
      | Some refs_dict =>
          (* elif refs_dict: an empty dict gives the empty set as well *)
          let objectset : gset string :=
            foldl (λ objectset kv,
                     if decide (path_type kv.2 = "file")
                     then {[ kv.1 ]} ∪ objectset else objectset) ∅
                  (map_to_list refs_dict) in
          Returns (Files (merge_sort string_le (elements objectset)))
      | None => Returns (Files [])
      end
  end.

(** The reference files [read_all_amd_references] collects. *)
Definition amd_reference_files : list string :=
  ["import-object-md-references.json";
   "create-addml-md-references.json";
   "create-audiomd-md-references.json";
   "create-mix-md-references.json";
   "create-videomd-md-references.json";
   "premis-event-md-references.json"].

(** [for stream in refs[ref]['streams']: ...]: the list of a stream that
    is already there is extended, a new stream is taken over. *)
Definition extend_streams (old new : gmap pystream (list string))
  : gmap pystream (list string) :=
  foldl (λ acc kv,
           match acc !! kv.1 with
           | Some ids => <[kv.1 := ids ++ kv.2]> acc
           | None => <[kv.1 := kv.2]> acc
           end) old (map_to_list new).

(** [for ref in refs: ...] *)
Definition extend_references (references refs : gmap string entry)
  : gmap string entry :=
  foldl (λ references kv,
           match references !! kv.1 with
           | Some old =>
               <[kv.1 := {| path_type := path_type old;
                            streams := extend_streams (streams old) (streams kv.2);
                            md_ids := md_ids old ++ md_ids kv.2 |}]> references
           | None => <[kv.1 := kv.2]> references
           end) references (map_to_list refs).

Definition read_all_amd_references (workspace : string) (w : world)
  : gmap string entry :=
  foldl (λ references ref_file,
           match read_md_references workspace ref_file w with
           | Some refs =>
               (* if refs: *)
               if decide (refs = ∅) then references
               else extend_references references refs
           | None => references
           end) ∅ amd_reference_files.

(** ** Definitions used to state further properties *)

(** The references of a batch for the path [k], in order. *)
Definition refs_for `{!Externals} (k : string) (refs : list reference)
  : list reference :=
  filter (λ r, ref_key r = k) refs.

(** An index as [write_references] leaves it: no temporary file beside
    it, one key per line, one line per path. *)
Definition index_ok (reference_file : string) (w : world) : Prop :=
  ref_files w !! (reference_file +:+ ".tmp") = None ∧
  index_format (default [] (ref_files w !! reference_file)) ∧
  NoDup (index_keys (default [] (ref_files w !! reference_file))).

(** The entry of a path in an index file that may be missing. *)
Definition read_entry (workspace ref_file : string) (w : world) (k : string)
  : option entry :=
  read_md_references workspace ref_file w ≫= λ refs, refs !! k.

(** The metadata file of an element: the name that [write_md] builds
    from the digest. *)
Definition amd_filename `{!Externals} (workspace : string) (metadata : Element)
    (mdtype : string) (othermdtype : option string) : string :=
  let suffix :=
    match othermdtype with
    | Some o => if String.eqb o "" then mdtype else o
    | None => mdtype
    end in
  os_path_join workspace
    (encode_path (generate_digest metadata +:+ "-" +:+ suffix +:+ "-amd.xml")).

(** The file [write_dict] writes for the metadata of an element. *)
Definition scraper_filename `{!Externals} (workspace : string) (metadata : Element)
  : string :=
  os_path_join workspace
    (encode_path (generate_digest metadata +:+ "-scraper.json")).

(** The ID that [write] gives to an element, and the key of the index
    under which it is referenced. *)
Definition element_id `{!Externals} (el : md_element) : string :=
  "_" +:+ generate_digest (me_metadata el).

Definition element_key `{!Externals} (el : md_element) : string :=
  _parse_refs (if path_truthy (me_directory el)
               then me_directory el else me_filename el).

(** [w'] differs from [w] in the reference files [names] at most, and
    its log extends the log of [w]. *)
Definition changes_only (names : list string) (w w' : world) : Prop :=
  md_files w' = md_files w ∧
  stdout w' = stdout w ∧
  (∀ name, name ∉ names → ref_files w' !! name = ref_files w !! name) ∧
  ∃ evs, events w' = events w ++ evs.

(** ** Further examples *)

(** A workspace whose index has a stream for [data/c.tif], under the text
    that JSON gives to the index 2. *)
Definition stream_world : world :=
  {| ref_files :=
       {[ "ws/refs.json" :=
            [[("data/c.tif",
               {| j_path_type := "file"; j_streams := [("2", ["_old"])];
                  j_md_ids := [] |})]] ]};
     md_files := ∅; stdout := []; events := [] |}.

(** A creator with one reference, to the stream 2 of [data/c.tif]. *)
Definition stream_creator : MetsSectionCreator :=
  @add_reference sample_externals (init "ws")
    "_x" (PathText "data/c.tif") (StreamInt 2) PathNone.

(** A creator with one reference, to a directory. *)
Definition directory_creator : MetsSectionCreator :=
  @add_reference sample_externals (init "ws")
    "_d" PathNone StreamNone (PathText "data/dir").

(** A creator with two elements: the first comes with a dict, the second
    without. *)
Definition element_creator : MetsSectionCreator :=
  @add_md sample_externals
    (@add_md sample_externals (init "ws")
       (Elem "mix-a" [] "" []) (PathText "data/a.tif") StreamNone PathNone
       (Some "scraped"))
    (Elem "mix-b" [] "" []) (PathText "data/b.tif") StreamNone PathNone None.

(** * Properties *)

Ltac simpl_result := unfold mbind, result_bind, mret, result_ret in *; simpl in *.

(** ** Files *)

Lemma tmp_name_ne (name : string) : name +:+ ".tmp" ≠ name.
Proof.
  induction name as [|a name IH]; simpl; [discriminate|].
  intros Heq. apply IH. by injection Heq.
Qed.

Lemma append_lines_spec (name : string) (ls : list jline) (w : world) :
  foldl (λ w l, append_line name l w) w ls =
  match ls with
  | [] => w
  | _ => {| ref_files := <[name := default [] (ref_files w !! name) ++ ls]> (ref_files w);
            md_files := md_files w;
            stdout := stdout w;
            events := events w ++ (EvAppend name <$> ls) |}
  end.
Proof.
  revert w. induction ls as [|l ls IH]; intros w; [done|].
  simpl. rewrite IH. destruct ls as [|l' ls]; [done|].
  unfold append_line; simpl. rewrite lookup_insert_eq, insert_insert_eq. simpl.
  by rewrite <- !app_assoc.
Qed.

Lemma dump_paths_spec (name : string) (ps : list (string * entry)) (w : world) :
  dump_paths name ps w = foldl (λ w l, append_line name l w) w (json_dump_path <$> ps).
Proof. unfold dump_paths. by rewrite foldl_fmap. Qed.

Lemma append_lines_existing (name : string) (old ls : list jline) (w : world) :
  ref_files w !! name = Some old →
  foldl (λ w l, append_line name l w) w ls =
  {| ref_files := <[name := old ++ ls]> (ref_files w);
     md_files := md_files w;
     stdout := stdout w;
     events := events w ++ (EvAppend name <$> ls) |}.
Proof.
  intros Hold. rewrite append_lines_spec. destruct ls as [|l ls].
  - simpl. rewrite !app_nil_r, insert_id by done. by destruct w.
  - by rewrite Hold.
Qed.

(** ** JSON *)

Lemma json_loads_snoc (l : jline) (k : string) (je : jentry) :
  json_loads (l ++ [(k, je)]) = <[k := json_loads_entry je]> (json_loads l).
Proof. unfold json_loads. by rewrite foldl_app. Qed.

Lemma dom_json_loads (l : jline) : dom (json_loads l) = list_to_set l.*1.
Proof.
  induction l as [|[k je] l IH] using rev_ind; [done|].
  rewrite json_loads_snoc, dom_insert_L, IH, fmap_app. simpl.
  rewrite list_to_set_snoc_L. apply (comm_L (∪)).
Qed.

Lemma json_loads_one (k : string) (je : jentry) :
  json_loads [(k, je)] = {[ k := json_loads_entry je ]}.
Proof. done. Qed.

Lemma get_path_None (lines : list jline) (k : string) :
  _get_path_from_reference_file lines k = None ↔ k ∉ index_keys lines.
Proof.
  unfold index_keys. induction lines as [|l lines IH]; simpl.
  - split; [intros _; apply not_elem_of_nil|done].
  - rewrite elem_of_app. destruct (json_loads l !! k) as [e|] eqn:Hk.
    + split; [done|]. intros Hn. exfalso. apply Hn. left.
      assert (k ∈ dom (json_loads l)) as Hd by (apply elem_of_dom; eauto).
      by rewrite dom_json_loads, elem_of_list_to_set in Hd.
    + rewrite IH. apply not_elem_of_dom in Hk.
      rewrite dom_json_loads, elem_of_list_to_set in Hk. tauto.
Qed.

Lemma get_path_is_Some (lines : list jline) (k : string) :
  is_Some (_get_path_from_reference_file lines k) ↔ k ∈ index_keys lines.
Proof.
  rewrite <- not_eq_None_Some, get_path_None.
  split; [apply dec_stable|]. tauto.
Qed.

Lemma index_keys_one_key (lines : list jline) (k : string) :
  index_format lines →
  k ∈ index_keys lines ↔ ∃ je, [(k, je)] ∈ lines.
Proof.
  unfold index_keys. intros Hfmt. rewrite list_elem_of_bind. split.
  - intros (l & Hk & Hl). unfold index_format in Hfmt. rewrite Forall_forall in Hfmt.
    destruct (Hfmt l Hl) as (k' & je & ->). simpl in Hk.
    apply list_elem_of_singleton in Hk as ->. eauto.
  - intros (je & Hl). exists [(k, je)]. split; [|done]. simpl. set_solver.
Qed.

(** ** The loop of [write_references] *)

Section loop.
Context `{!Externals}.

Lemma state_ok_init : state_ok refs_init.
Proof.
  intros k i. unfold refs_init; simpl. rewrite lookup_empty.
  split; [done|]. by intros [e ?].
Qed.

Lemma state_ok_keys (st : refs_state) (k : string) :
  state_ok st → k ∈ (paths st).*1 ↔ is_Some (path_map st !! k).
Proof.
  intros Hok. rewrite list_elem_of_fmap. split.
  - intros ([k' e] & -> & Hin). apply list_elem_of_lookup in Hin as [i Hi].
    exists i. apply Hok. eauto.
  - intros [i Hi]. apply Hok in Hi as [e He]. exists (k, e). split; [done|].
    by eapply list_elem_of_lookup_2.
Qed.

Lemma state_ok_NoDup (st : refs_state) : state_ok st → NoDup (paths st).*1.
Proof.
  intros Hok. apply NoDup_alt. intros i j k Hi Hj.
  rewrite list_lookup_fmap in Hi, Hj.
  destruct (paths st !! i) as [[ki ei]|] eqn:Hpi; simpl in Hi; [|done].
  destruct (paths st !! j) as [[kj ej]|] eqn:Hpj; simpl in Hj; [|done].
  injection Hi as ->. injection Hj as ->.
  assert (path_map st !! k = Some i) as H1 by (apply Hok; eauto).
  assert (path_map st !! k = Some j) as H2 by (apply Hok; eauto).
  congruence.
Qed.

(** One iteration, spelled out: the reference either updates the entry
    its path already has in [paths], or appends the entry taken from the
    file (or a new one) with the update applied. *)
Lemma add_ref_step (file_lines : option (list jline)) (st : refs_state)
    (ref : reference) :
  state_ok st →
  let k := ref_key ref in
  match path_map st !! k with
  | Some i =>
      ∃ e, paths st !! i = Some (k, e) ∧
           add_ref file_lines st ref
           = Ok {| path_map := path_map st;
                   paths := <[i := (k, update_entry e ref)]> (paths st);
                   paths_updated := paths_updated st |}
  | None =>
      add_ref file_lines st ref
      = Ok {| path_map := <[k := length (paths st)]> (path_map st);
              paths := paths st ++
                [(k, update_entry (initial_entry file_lines k (ref_path_type ref)) ref)];
              paths_updated :=
                if decide (k ∈ index_keys (default [] file_lines))
                then {[ k ]} ∪ paths_updated st
                else paths_updated st |}
  end.
Proof.
  intros Hok k. unfold add_ref, find_path, lookup_path. fold (ref_key ref). fold k.
  destruct (path_map st !! k) as [i|] eqn:Hpm.
  - apply Hok in Hpm as Hi. destruct Hi as [e He]. exists e. split; [done|].
    rewrite He, decide_True by done. simpl_result.
    unfold store_path, update_entry. rewrite Hpm, He.
    destruct (stream_truthy (ref_stream ref)); by case_decide.
  - simpl_result. unfold store_path, update_entry, initial_entry. simpl.
    rewrite lookup_insert_eq, length_app. simpl.
    replace (length (paths st) + 1 - 1)%nat with (length (paths st)) by lia.
    rewrite lookup_app_r, Nat.sub_diag by lia. simpl.
    rewrite !insert_app_r_alt, Nat.sub_diag by lia. simpl.
    assert ((if decide (k ∈ index_keys (default [] file_lines))
             then {[k]} ∪ paths_updated st else paths_updated st)
            = match match file_lines with
                    | Some lines => _get_path_from_reference_file lines k
                    | None => None
                    end with
              | Some _ => {[k]} ∪ paths_updated st
              | None => paths_updated st
              end) as ->.
    { destruct file_lines as [lines|]; simpl.
      - destruct (_get_path_from_reference_file lines k) eqn:Hg.
        + rewrite decide_True; [done|]. apply get_path_is_Some. eauto.
        + rewrite decide_False; [done|]. by apply get_path_None.
      - done. }
    destruct file_lines as [lines|]; simpl;
      destruct (stream_truthy (ref_stream ref)); by case_decide.
Qed.

Lemma state_ok_update (st : refs_state) (k : string) (i : nat) (e e' : entry) :
  state_ok st → paths st !! i = Some (k, e) →
  state_ok {| path_map := path_map st;
              paths := <[i := (k, e')]> (paths st);
              paths_updated := paths_updated st |}.
Proof.
  intros Hok Hi k' j. simpl. rewrite (Hok k' j).
  destruct (decide (j = i)) as [->|Hne].
  - rewrite list_lookup_insert_eq by (by eapply lookup_lt_Some). rewrite Hi.
    split; intros [e1 He1]; simplify_eq; eauto.
  - by rewrite list_lookup_insert_ne.
Qed.

Lemma state_ok_append (st : refs_state) (k : string) (e : entry) (u : gset string) :
  state_ok st → path_map st !! k = None →
  state_ok {| path_map := <[k := length (paths st)]> (path_map st);
              paths := paths st ++ [(k, e)];
              paths_updated := u |}.
Proof.
  intros Hok Hk k' j. simpl. destruct (decide (k' = k)) as [->|Hne].
  - rewrite lookup_insert_eq. split.
    + intros [= <-]. exists e. by rewrite lookup_app_r, Nat.sub_diag by lia.
    + intros [e1 He1]. apply lookup_app_Some in He1 as [He1|[Hlen He1]].
      * assert (path_map st !! k = Some j) by (apply Hok; eauto). congruence.
      * apply list_lookup_singleton_Some in He1 as [Hj _]. f_equal. lia.
  - rewrite lookup_insert_ne by done. rewrite (Hok k' j).
    split; intros [e1 He1]; exists e1.
    + by apply lookup_app_l_Some.
    + apply lookup_app_Some in He1 as [He1|[Hlen He1]]; [done|].
      apply list_lookup_singleton_Some in He1 as [_ ?]. congruence.
Qed.

(** One iteration keeps the loop's invariants; no [IndexError] and no
    uncaught [KeyError] can come out of it. *)
Lemma add_ref_ok (file_lines : option (list jline)) (st : refs_state)
    (ref : reference) :
  state_ok st → updated_ok file_lines st →
  ∃ st', add_ref file_lines st ref = Ok st' ∧
         state_ok st' ∧ updated_ok file_lines st' ∧
         (paths st').*1 =
           (if decide (ref_key ref ∈ (paths st).*1) then (paths st).*1
            else (paths st).*1 ++ [ref_key ref]).
Proof.
  intros Hok Hupd. pose proof (add_ref_step file_lines st ref Hok) as Hstep.
  simpl in Hstep. destruct (path_map st !! ref_key ref) as [i|] eqn:Hpm.
  - destruct Hstep as (e & Hi & ->). eexists. split; [done|].
    assert ((<[i:=(ref_key ref, update_entry e ref)]> (paths st)).*1 = (paths st).*1)
      as Hkeys.
    { rewrite list_fmap_insert. apply list_insert_id.
      by rewrite list_lookup_fmap, Hi. }
    split_and!.
    + by eapply state_ok_update.
    + intros k. simpl. by rewrite Hkeys.
    + simpl. rewrite Hkeys, decide_True; [done|].
      apply state_ok_keys; eauto.
  - rewrite Hstep. eexists. split; [done|].
    assert (ref_key ref ∉ (paths st).*1) as Hnew.
    { rewrite state_ok_keys, Hpm by done. by intros [? ?]. }
    split_and!.
    + by apply state_ok_append.
    + intros k. simpl. rewrite fmap_app, elem_of_app. simpl.
      rewrite list_elem_of_singleton.
      case_decide as Hdisk.
      * rewrite elem_of_union, elem_of_singleton, (Hupd k).
        split; [intros [->|[? ?]]; tauto|].
        intros [[?| ->] ?]; tauto.
      * rewrite (Hupd k). split; [tauto|].
        intros [[?| ->] ?]; tauto.
    + simpl. by rewrite fmap_app, decide_False.
Qed.

Lemma add_refs_ok (file_lines : option (list jline)) (refs : list reference)
    (st : refs_state) :
  state_ok st → updated_ok file_lines st →
  ∃ st', add_refs file_lines st refs = Ok st' ∧
         state_ok st' ∧ updated_ok file_lines st' ∧
         list_to_set (paths st').*1
         =@{gset string} list_to_set (paths st).*1 ∪ list_to_set (ref_key <$> refs).
Proof.
  revert st. induction refs as [|ref refs IH]; intros st Hok Hupd; simpl.
  - exists st. split_and!; try done. by rewrite (right_id_L ∅ (∪)).
  - destruct (add_ref_ok file_lines st ref Hok Hupd)
      as (st1 & -> & Hok1 & Hupd1 & Hkeys1).
    destruct (IH st1 Hok1 Hupd1) as (st' & Hrun & Hok' & Hupd' & Hkeys').
    exists st'. simpl_result. split_and!; try done.
    rewrite Hkeys', Hkeys1. case_decide as Hin.
    + apply set_eq. intros x.
      rewrite !elem_of_union, elem_of_singleton, !elem_of_list_to_set.
      split; [tauto|]. intros [?|[->|?]]; tauto.
    + rewrite list_to_set_snoc_L. by rewrite (assoc_L (∪)).
Qed.

Lemma untouched_one (updated : gset string) (k : string) (je : jentry) :
  untouched updated [(k, je)] ↔ k ∉ updated.
Proof.
  unfold untouched. rewrite json_loads_one, dom_singleton_L.
  apply disjoint_singleton_l.
Qed.

Lemma copy_line_one (tmp : string) (updated : gset string) (w : world)
    (k : string) (je : jentry) :
  copy_line tmp updated w [(k, je)]
  = if decide (k ∈ updated) then w else append_line tmp [(k, je)] w.
Proof.
  unfold copy_line. by rewrite json_loads_one, dom_singleton_L, elements_singleton.
Qed.

(** The copy loop on a file in the index format: the lines whose key was
    not updated are appended to the temporary file, in order. *)
Lemma copy_lines_spec (tmp : string) (updated : gset string) (lines : list jline)
    (w : world) :
  index_format lines →
  foldl (copy_line tmp updated) w lines
  = foldl (λ w l, append_line tmp l w) w (filter (untouched updated) lines).
Proof.
  intros Hfmt. revert w. induction Hfmt as [|line lines (k & je & ->) _ IH];
    intros w; [done|].
  rewrite filter_cons. cbn [foldl]. rewrite copy_line_one.
  destruct (decide (k ∈ updated)) as [Hin|Hin].
  - rewrite decide_False by (rewrite untouched_one; tauto). apply IH.
  - rewrite decide_True by (by rewrite untouched_one). apply IH.
Qed.

(** What [write_references] leaves behind, from the result [st] of its
    loop, when no temporary file was left over and the file is in the
    index format. *)
Lemma write_references_run (self : MetsSectionCreator) (ref_file : string)
    (w : world) (st : refs_state) :
  let reference_file := os_path_join (workspace self) ref_file in
  let tmp := reference_file +:+ ".tmp" in
  let lines := default [] (ref_files w !! reference_file) in
  let fresh := json_dump_path <$> paths st in
  ref_files w !! tmp = None →
  index_format lines →
  add_refs (ref_files w !! reference_file) refs_init (references self) = Ok st →
  (paths_updated st ≠ ∅ → is_Some (ref_files w !! reference_file)) →
  write_references self ref_file w =
  Ok (if decide (paths_updated st ≠ ∅) then
        let new := filter (untouched (paths_updated st)) lines ++ fresh in
        {| ref_files := <[reference_file := new]> (ref_files w);
           md_files := md_files w;
           stdout := stdout w;
           events := events w ++ EvCreate tmp :: (EvAppend tmp <$> new)
                              ++ [EvRename tmp reference_file] |}
      else
        match fresh with
        | [] => w
        | _ => {| ref_files := <[reference_file := lines ++ fresh]> (ref_files w);
                  md_files := md_files w;
                  stdout := stdout w;
                  events := events w ++ (EvAppend reference_file <$> fresh) |}
        end).
Proof.
  intros rf tmp lines fresh Htmp Hfmt Hrun Hsome.
  unfold write_references. fold rf. fold tmp. rewrite Hrun. simpl_result.
  case_decide as Hupd.
  - destruct (Hsome Hupd) as [ls Hls]. subst lines. rewrite Hls in Hfmt |- *.
    simpl in Hfmt |- *.
    rewrite dump_paths_spec, copy_lines_spec, <- foldl_app by done.
    fold fresh. unfold open_append. rewrite Htmp.
    erewrite append_lines_existing by (simpl; apply lookup_insert_eq).
    simpl. rewrite insert_insert_eq, lookup_insert_eq.
    unfold os_rename. simpl. rewrite lookup_insert_eq, delete_insert_eq.
    rewrite delete_id by done. by rewrite <- !app_assoc.
  - rewrite dump_paths_spec, append_lines_spec. fold fresh.
    destruct fresh as [|l fresh']; [by rewrite Htmp|].
    simpl. rewrite lookup_insert_ne by (by apply not_eq_sym, tmp_name_ne).
    by rewrite Htmp.
Qed.

Lemma filter_ext_in {A} (P1 P2 : A → Prop) `{!∀ x, Decision (P1 x)}
    `{!∀ x, Decision (P2 x)} (l : list A) :
  (∀ x, x ∈ l → P1 x ↔ P2 x) → filter P1 l = filter P2 l.
Proof.
  induction l as [|x l IH]; intros Hext; [done|].
  rewrite !filter_cons. rewrite IH by (intros y Hy; apply Hext; by right).
  pose proof (Hext x (list_elem_of_here _ _)) as Hx.
  destruct (decide (P1 x)) as [Hp|Hp], (decide (P2 x)) as [Hq|Hq];
    try done; tauto.
Qed.

(** The loop of a whole batch, started from empty locals. *)
Lemma add_refs_init (file_lines : option (list jline)) (refs : list reference) :
  ∃ st, add_refs file_lines refs_init refs = Ok st ∧
        state_ok st ∧ updated_ok file_lines st ∧
        list_to_set (paths st).*1 =@{gset string} list_to_set (ref_key <$> refs).
Proof.
  destruct (add_refs_ok file_lines refs refs_init) as (st & ? & ? & ? & Hkeys).
  - apply state_ok_init.
  - intros k. simpl. rewrite elem_of_empty, elem_of_nil. tauto.
  - exists st. split_and!; try done.
    simpl in Hkeys. by rewrite (left_id_L ∅ (∪)) in Hkeys.
Qed.

(** C2. A batch flushed by [write_references] to an index file in the
    index format, no temporary file being left over from before.  The
    batch gives exactly one fresh line per path it touches.  If the file
    has a line for a touched path, the new file is the old lines whose
    key was not touched, unchanged and in order, followed by the fresh
    lines; all of it is written to the temporary file and the renaming
    that replaces the index happens last.  Otherwise the fresh lines are
    appended to the index file itself (which is created when it was
    missing) and the temporary file is not used. *)
Theorem write_references_rewrite_or_append (self : MetsSectionCreator)
    (ref_file : string) (w : world) :
  let reference_file := os_path_join (workspace self) ref_file in
  let tmp := reference_file +:+ ".tmp" in
  let lines := default [] (ref_files w !! reference_file) in
  let touched : gset string := list_to_set (ref_key <$> references self) in
  ref_files w !! tmp = None →
  index_format lines →
  ∃ st w',
    add_refs (ref_files w !! reference_file) refs_init (references self) = Ok st ∧
    write_references self ref_file w = Ok w' ∧
    let fresh := json_dump_path <$> paths st in
    NoDup (paths st).*1 ∧
    list_to_set (paths st).*1 = touched ∧
    md_files w' = md_files w ∧
    stdout w' = stdout w ∧
    ref_files w' !! tmp = None ∧
    if decide (Exists (λ k, k ∈ touched) (index_keys lines)) then
      let new := filter (untouched touched) lines ++ fresh in
      ref_files w' = <[reference_file := new]> (ref_files w) ∧
      events w' = events w ++ EvCreate tmp :: (EvAppend tmp <$> new)
                           ++ [EvRename tmp reference_file]
    else
      ref_files w' = (if decide (references self = []) then ref_files w
                      else <[reference_file := lines ++ fresh]> (ref_files w)) ∧
      events w' = events w ++ (EvAppend reference_file <$> fresh).
Proof.
  intros rf tmp lines touched Htmp Hfmt.
  destruct (add_refs_init (ref_files w !! rf) (references self))
    as (st & Hrun & Hok & Hupd & Hkeys).
  fold touched in Hkeys. fold lines in Hupd.
  assert (∀ k, k ∈ paths_updated st ↔ k ∈ touched ∧ k ∈ index_keys lines) as Hupd'.
  { intros k. by rewrite (Hupd k), <- Hkeys, elem_of_list_to_set. }
  assert (paths_updated st ≠ ∅ ↔ Exists (λ k, k ∈ touched) (index_keys lines))
    as Hcase.
  { rewrite Exists_exists. split.
    - intros [k Hk]%set_choose_L. apply Hupd' in Hk. exists k. tauto.
    - intros (k & Hk & Ht) Hempty.
      assert (k ∈ paths_updated st) as Hin by (apply Hupd'; tauto).
      rewrite Hempty in Hin. by apply elem_of_empty in Hin. }
  assert (paths_updated st ≠ ∅ → is_Some (ref_files w !! rf)) as Hsome.
  { intros [k Hk]%set_choose_L. apply Hupd' in Hk as [_ Hk].
    subst lines. destruct (ref_files w !! rf); [done|].
    by apply elem_of_nil in Hk. }
  pose proof (write_references_run self ref_file w st Htmp Hfmt Hrun Hsome) as Hw.
  fold rf tmp lines in Hw.
  eexists st, _. split; [done|]. split; [exact Hw|].
  assert (filter (untouched (paths_updated st)) lines
          = filter (untouched touched) lines) as Hfilter.
  { apply filter_ext_in. intros line Hline.
    unfold index_format in Hfmt. rewrite Forall_forall in Hfmt.
    destruct (Hfmt line Hline) as (k & je & ->).
    rewrite !untouched_one, Hupd'.
    assert (k ∈ index_keys lines); [|tauto].
    apply index_keys_one_key; [by apply Forall_forall|eauto]. }
  assert (paths st = [] ↔ references self = []) as Hnil.
  { split.
    - intros Hp. rewrite Hp in Hkeys. simpl in Hkeys.
      destruct (references self) as [|r rs]; [done|].
      exfalso. subst touched. simpl in Hkeys.
      assert (ref_key r ∈ (∅ : gset string)) as Hin
        by (rewrite Hkeys; apply elem_of_union_l, elem_of_singleton; done).
      by apply elem_of_empty in Hin.
    - intros Hr. rewrite Hr in Hrun. simpl in Hrun. by injection Hrun as <-. }
  split; [by apply state_ok_NoDup|]. split; [done|].
  destruct (decide (paths_updated st ≠ ∅)) as [Hne|He].
  - rewrite decide_True by (by apply Hcase). simpl.
    rewrite lookup_insert_ne by (by apply not_eq_sym, tmp_name_ne).
    by rewrite Hfilter.
  - rewrite decide_False by (by rewrite <- Hcase).
    destruct (paths st) as [|p ps] eqn:Hp; simpl.
    + rewrite decide_True by (by apply Hnil). by rewrite app_nil_r.
    + rewrite decide_False by (rewrite <- Hnil; done).
      rewrite lookup_insert_ne by (by apply not_eq_sym, tmp_name_ne).
      done.
Qed.

(** *** Batches that reference one path, without a stream *)

Lemma uniques_list_set (l : list string) (x : string) :
  list_to_set (_uniques_list l x) =@{gset string} list_to_set l ∪ {[ x ]}.
Proof.
  unfold _uniques_list. rewrite list_to_set_elements_L. apply (comm_L (∪)).
Qed.

Lemma uniques_list_NoDup (l : list string) (x : string) : NoDup (_uniques_list l x).
Proof. apply NoDup_elements. Qed.

Lemma same_path_loop (file_lines : option (list jline)) (k : string)
    (refs : list reference) (st : refs_state) (e : entry) :
  Forall (plain_ref k) refs →
  state_ok st → paths st = [(k, e)] →
  ∃ e', add_refs file_lines st refs
        = Ok {| path_map := path_map st; paths := [(k, e')];
                paths_updated := paths_updated st |} ∧
        path_type e' = path_type e ∧ streams e' = streams e ∧
        list_to_set (md_ids e')
        =@{gset string} list_to_set (md_ids e) ∪ list_to_set (ref_md_id <$> refs) ∧
        (NoDup (md_ids e) → NoDup (md_ids e')).
Proof.
  intros Hrefs. revert st e.
  induction Hrefs as [|ref refs [Hkey Hstream] _ IH]; intros st e Hok Hpaths.
  - exists e. simpl. rewrite <- Hpaths. split_and!; try done.
    + by destruct st.
    + by rewrite (right_id_L ∅ (∪)).
  - assert (path_map st !! k = Some 0%nat) as Hpm.
    { apply Hok. exists e. by rewrite Hpaths. }
    pose proof (add_ref_step file_lines st ref Hok) as Hstep. simpl in Hstep.
    rewrite Hkey, Hpm in Hstep. destruct Hstep as (e0 & He0 & Hstep).
    rewrite Hpaths in He0, Hstep. simpl in He0, Hstep. injection He0 as <-.
    simpl. rewrite Hstep. simpl_result.
    edestruct (IH {| path_map := path_map st;
                     paths := [(k, update_entry e ref)];
                     paths_updated := paths_updated st |} (update_entry e ref))
      as (e' & Hrun & Hpt & Hs & Hset & Hnd); [| |exists e'].
    + eapply (state_ok_update st k 0 e) in Hok; [|by rewrite Hpaths].
      rewrite Hpaths in Hok. exact Hok.
    + done.
    + simpl in Hrun. rewrite Hrun.
      unfold update_entry in Hpt, Hs, Hset, Hnd. rewrite Hstream in *.
      simpl in *. split_and!; try done.
      * rewrite Hset, uniques_list_set. by rewrite (assoc_L (∪)).
      * intros _. apply Hnd, uniques_list_NoDup.
Qed.

(** The loop on a non-empty batch for one path: one entry, taken from the
    file or new, to which the IDs of the batch were added. *)
Lemma same_path_batch (file_lines : option (list jline)) (k : string)
    (ref : reference) (refs : list reference) :
  Forall (plain_ref k) (ref :: refs) →
  ∃ st e',
    add_refs file_lines refs_init (ref :: refs) = Ok st ∧
    paths st = [(k, e')] ∧
    paths_updated st = (if decide (k ∈ index_keys (default [] file_lines))
                        then {[ k ]} else ∅) ∧
    path_type e' = path_type (initial_entry file_lines k (ref_path_type ref)) ∧
    streams e' = streams (initial_entry file_lines k (ref_path_type ref)) ∧
    list_to_set (md_ids e')
    =@{gset string}
      list_to_set (md_ids (initial_entry file_lines k (ref_path_type ref)))
      ∪ list_to_set (ref_md_id <$> (ref :: refs)) ∧
    NoDup (md_ids e').
Proof.
  intros Hrefs. apply Forall_cons in Hrefs as [[Hkey Hstream] Hrefs].
  pose proof (add_ref_step file_lines refs_init ref state_ok_init) as Hstep.
  simpl in Hstep. rewrite Hkey, lookup_empty in Hstep.
  set (e0 := initial_entry file_lines k (ref_path_type ref)) in *.
  set (st1 := {| path_map := <[k:=0%nat]> ∅;
                 paths := [(k, update_entry e0 ref)];
                 paths_updated := if decide (k ∈ index_keys (default [] file_lines))
                                  then {[k]} ∪ ∅ else ∅ |}).
  destruct (same_path_loop file_lines k refs st1 (update_entry e0 ref) Hrefs)
    as (e' & Hrun & Hpt & Hs & Hset & Hnd).
  { apply (state_ok_append refs_init k (update_entry e0 ref) _ state_ok_init).
    apply lookup_empty. }
  { done. }
  eexists _, e'. simpl. rewrite Hstep. simpl_result. fold st1. rewrite Hrun.
  unfold update_entry in Hpt, Hs, Hset, Hnd. rewrite Hstream in *. simpl in *.
  split_and!; try done.
  - case_decide; [|done]. by rewrite (right_id_L ∅ (∪)).
  - rewrite Hset, uniques_list_set.
    rewrite <- !(assoc_L (∪)). done.
  - apply Hnd, uniques_list_NoDup.
Qed.

End loop.

(** ** Flushing references for one path and reading them back *)

Section one_path.
Context `{!Externals}.

Lemma get_path_app (l1 l2 : list jline) (k : string) :
  _get_path_from_reference_file (l1 ++ l2) k
  = match _get_path_from_reference_file l1 k with
    | Some e => Some e
    | None => _get_path_from_reference_file l2 k
    end.
Proof.
  induction l1 as [|l l1 IH]; simpl; [done|].
  by destruct (json_loads l !! k).
Qed.

Lemma index_format_filter (P : jline → Prop) `{!∀ l, Decision (P l)}
    (lines : list jline) :
  index_format lines → index_format (filter P lines).
Proof.
  unfold index_format. rewrite !Forall_forall. intros Hfmt l Hl.
  apply list_elem_of_filter in Hl as [_ Hl]. by apply Hfmt.
Qed.

Lemma filter_untouched_keys (k : string) (lines : list jline) :
  index_format lines → k ∉ index_keys (filter (untouched {[ k ]}) lines).
Proof.
  intros Hfmt Hin.
  apply index_keys_one_key in Hin as [je Hin]; [|by apply index_format_filter].
  apply list_elem_of_filter in Hin as [Hun _].
  apply untouched_one in Hun. by apply Hun, elem_of_singleton.
Qed.

Lemma filter_untouched_id (k : string) (lines : list jline) :
  index_format lines → k ∉ index_keys lines →
  filter (untouched {[ k ]}) lines = lines.
Proof.
  intros Hfmt Hk. induction Hfmt as [|line lines (k' & je & ->) Hfmt IH]; [done|].
  rewrite filter_cons, decide_True.
  - f_equal. apply IH. intros Hin. apply Hk. unfold index_keys in *.
    simpl. by right.
  - apply untouched_one. rewrite not_elem_of_singleton. intros ->.
    apply Hk. unfold index_keys. simpl. by left.
Qed.

Lemma flushed_format (lines : list jline) (k : string) (e : entry) :
  index_format lines → index_format (flushed lines k e).
Proof.
  intros Hfmt. apply Forall_app. split; [by apply index_format_filter|].
  apply Forall_singleton. by eexists _, _.
Qed.

Lemma flushed_get_path (lines : list jline) (k : string) (e : entry) :
  index_format lines →
  _get_path_from_reference_file (flushed lines k e) k
  = Some (json_loads_entry (json_dump_entry e)).
Proof.
  intros Hfmt. unfold flushed. rewrite get_path_app.
  rewrite (proj2 (get_path_None _ k)) by (by apply filter_untouched_keys).
  cbn [_get_path_from_reference_file].
  by rewrite json_loads_one, lookup_singleton_eq.
Qed.

Lemma flushed_keys (lines : list jline) (k : string) (e : entry) :
  k ∈ index_keys (flushed lines k e).
Proof.
  unfold flushed, index_keys. rewrite bind_app, elem_of_app. right.
  simpl. by left.
Qed.

Lemma read_md_references_last (ws ref_file : string) (w : world)
    (others : list jline) (k : string) (je : jentry) :
  ref_files w !! os_path_join ws ref_file = Some (others ++ [[(k, je)]]) →
  ∃ refs, read_md_references ws ref_file w = Some refs ∧
          refs !! k = Some (json_loads_entry je).
Proof.
  intros Hfile. unfold read_md_references. rewrite Hfile, foldl_app. simpl.
  eexists. split; [done|].
  apply lookup_union_Some_l. rewrite json_loads_one. apply lookup_singleton_eq.
Qed.

(** A flush of a non-empty batch that references only the path [k],
    without a stream. *)
Lemma same_path_flush (self : MetsSectionCreator) (ref_file : string) (w : world)
    (k : string) (ref : reference) (refs : list reference) :
  let reference_file := os_path_join (workspace self) ref_file in
  let tmp := reference_file +:+ ".tmp" in
  let lines := default [] (ref_files w !! reference_file) in
  let e0 := initial_entry (ref_files w !! reference_file) k (ref_path_type ref) in
  references self = ref :: refs →
  Forall (plain_ref k) (ref :: refs) →
  ref_files w !! tmp = None →
  index_format lines →
  ∃ w' e',
    write_references self ref_file w = Ok w' ∧
    ref_files w' = <[reference_file := flushed lines k e']> (ref_files w) ∧
    path_type e' = path_type e0 ∧
    streams e' = streams e0 ∧
    list_to_set (md_ids e')
    =@{gset string} list_to_set (md_ids e0) ∪ list_to_set (ref_md_id <$> (ref :: refs)) ∧
    NoDup (md_ids e').
Proof.
  intros rf tmp lines e0 Hrefs Hplain Htmp Hfmt.
  destruct (same_path_batch (ref_files w !! rf) k ref refs Hplain)
    as (st & e' & Hrun & Hpaths & Hupd & Hpt & Hs & Hset & Hnd).
  fold lines in Hupd. fold e0 in Hpt, Hs, Hset.
  rewrite <- Hrefs in Hrun.
  assert (paths_updated st ≠ ∅ → is_Some (ref_files w !! rf)) as Hsome.
  { rewrite Hupd. case_decide as Hin; [|done]. intros _.
    subst lines. destruct (ref_files w !! rf); [done|].
    by apply elem_of_nil in Hin. }
  pose proof (write_references_run self ref_file w st Htmp Hfmt Hrun Hsome) as Hw.
  fold rf tmp lines in Hw. rewrite Hpaths, Hupd in Hw. simpl in Hw.
  eexists _, e'. split; [exact Hw|]. split_and!; try done.
  unfold flushed. destruct (decide (k ∈ index_keys lines)) as [Hin|Hin].
  - rewrite decide_True; [done|]. apply non_empty_singleton_L.
  - rewrite decide_False by (intros Hne; by apply Hne). simpl.
    by rewrite filter_untouched_id.
Qed.

Lemma same_path_flush_post (ws ref_file : string) (w w' : world) (k pt : string)
    (e' : entry) :
  let reference_file := os_path_join ws ref_file in
  let tmp := reference_file +:+ ".tmp" in
  let lines := default [] (ref_files w !! reference_file) in
  ref_files w !! tmp = None →
  index_format lines →
  ref_files w' = <[reference_file := flushed lines k e']> (ref_files w) →
  ref_files w' !! tmp = None ∧
  index_format (default [] (ref_files w' !! reference_file)) ∧
  k ∈ index_keys (default [] (ref_files w' !! reference_file)) ∧
  initial_entry (ref_files w' !! reference_file) k pt
  = json_loads_entry (json_dump_entry e') ∧
  ∃ refs, read_md_references ws ref_file w' = Some refs ∧
          refs !! k = Some (json_loads_entry (json_dump_entry e')).
Proof.
  intros rf tmp lines Htmp Hfmt Hw'.
  assert (ref_files w' !! rf = Some (flushed lines k e')) as Hrf
    by (rewrite Hw'; apply lookup_insert_eq).
  rewrite Hrf. simpl. split_and!.
  - rewrite Hw', lookup_insert_ne by (by apply not_eq_sym, tmp_name_ne). done.
  - by apply flushed_format.
  - apply flushed_keys.
  - unfold initial_entry. simpl. by rewrite flushed_get_path.
  - by eapply read_md_references_last.
Qed.

Lemma write_no_elements (self : MetsSectionCreator) (mdtype mdtypeversion : string)
    (othermdtype section : option string) (to_stdout : bool)
    (file_metadata_dict : option metadata_dict) (ref_file : string) (w : world) :
  md_elements self = [] →
  write self mdtype mdtypeversion othermdtype section to_stdout
        file_metadata_dict ref_file w
  = (w' ← write_references self ref_file w; Ok (init (workspace self), w')).
Proof. intros Hnil. unfold write. by rewrite Hnil. Qed.

Lemma add_references_spec (self : MetsSectionCreator) (P : pypath)
    (ids : list string) :
  add_references self P ids
  = {| workspace := workspace self;
       md_elements := md_elements self;
       references := references self ++
         ((λ md_id, {| ref_md_id := md_id; ref_stream := StreamNone;
                       ref_path := P; ref_path_type := "file" |}) <$> ids) |}.
Proof.
  unfold add_references. revert self.
  induction ids as [|md_id ids IH]; intros self; simpl.
  - rewrite app_nil_r. by destruct self.
  - rewrite IH. unfold add_reference. simpl. by rewrite <- app_assoc.
Qed.

(** C1. An index file in the index format (or none yet), no temporary
    file left over.  One creator calls [add_reference] for [P] with the
    ID [A] and writes; a second, fresh creator calls [add_reference] for
    [P] with the ID [B] and writes to the same file.  Both writes return,
    and reading the final index gives an entry for [P] whose [md_ids] has
    both [A] and [B]. *)
Theorem write_twice_merges (ws ref_file : string) (w : world) (P : pypath)
    (A B mdtype mdtypeversion : string) (othermdtype section : option string)
    (to_stdout : bool) (file_metadata_dict : option metadata_dict) :
  let reference_file := os_path_join ws ref_file in
  ref_files w !! (reference_file +:+ ".tmp") = None →
  index_format (default [] (ref_files w !! reference_file)) →
  ∃ c1 w1 c2 w2 refs e,
    write (add_reference (init ws) A P StreamNone PathNone)
          mdtype mdtypeversion othermdtype section to_stdout
          file_metadata_dict ref_file w = Ok (c1, w1) ∧
    write (add_reference (init ws) B P StreamNone PathNone)
          mdtype mdtypeversion othermdtype section to_stdout
          file_metadata_dict ref_file w1 = Ok (c2, w2) ∧
    read_md_references ws ref_file w2 = Some refs ∧
    refs !! _parse_refs P = Some e ∧
    A ∈ md_ids e ∧ B ∈ md_ids e.
Proof.
  intros rf Htmp Hfmt.
  set (k := _parse_refs P).
  set (mk := λ md_id, {| ref_md_id := md_id; ref_stream := StreamNone;
                         ref_path := P; ref_path_type := "file" |}).
  assert (∀ md_id, Forall (plain_ref k) [mk md_id]) as Hplain.
  { intros md_id. by apply Forall_singleton. }
  destruct (same_path_flush (add_reference (init ws) A P StreamNone PathNone)
              ref_file w k (mk A) [] eq_refl (Hplain A) Htmp Hfmt)
    as (w1 & e1 & Hw1 & Hfiles1 & _ & _ & Hset1 & _).
  destruct (same_path_flush_post ws ref_file w w1 k "file" e1 Htmp Hfmt Hfiles1)
    as (Htmp1 & Hfmt1 & _ & Hinit1 & _).
  destruct (same_path_flush (add_reference (init ws) B P StreamNone PathNone)
              ref_file w1 k (mk B) [] eq_refl (Hplain B) Htmp1 Hfmt1)
    as (w2 & e2 & Hw2 & Hfiles2 & _ & _ & Hset2 & _).
  destruct (same_path_flush_post ws ref_file w1 w2 k "file" e2 Htmp1 Hfmt1 Hfiles2)
    as (_ & _ & _ & _ & refs & Hread & Hk).
  simpl in Hset1, Hset2, Hinit1. rewrite Hinit1 in Hset2. simpl in Hset2.
  exists (init ws), w1, (init ws), w2, refs, (json_loads_entry (json_dump_entry e2)).
  rewrite !write_no_elements by done. rewrite Hw1, Hw2. simpl_result.
  split_and!; try done.
  - apply (elem_of_list_to_set (C:=gset string)). rewrite Hset2, Hset1.
    apply elem_of_union_l, elem_of_union_r, elem_of_union_l.
    by apply elem_of_singleton.
  - apply (elem_of_list_to_set (C:=gset string)). rewrite Hset2.
    apply elem_of_union_r, elem_of_union_l. by apply elem_of_singleton.
Qed.

End one_path.

(** ** No ID is listed twice *)

Section nodup.
Context `{!Externals}.

Lemma json_dump_entry_nodup (e : entry) :
  entry_nodup e → jentry_nodup (json_dump_entry e).
Proof.
  intros [Hids Hstreams]. split; [done|]. simpl.
  apply map_Forall_to_list in Hstreams.
  apply Forall_fmap. eapply Forall_impl; [exact Hstreams|].
  by intros [k ids].
Qed.

Lemma json_loads_entry_nodup (je : jentry) :
  jentry_nodup je → entry_nodup (json_loads_entry je).
Proof.
  intros [Hids Hstreams]. split; [done|]. simpl.
  revert Hstreams. generalize (j_streams je). intros l.
  induction l as [|[k ids] l IH] using rev_ind; intros Hstreams.
  - apply map_Forall_empty.
  - apply Forall_app in Hstreams as [Hl Hk]. rewrite Forall_singleton in Hk.
    rewrite foldl_app. simpl. apply map_Forall_insert_2; [exact Hk|]. by apply IH.
Qed.

Lemma json_loads_nodup (line : jline) (k : string) (e : entry) :
  line_nodup line → json_loads line !! k = Some e → entry_nodup e.
Proof.
  induction line as [|[k' je] line IH] using rev_ind; intros Hline Hk; [done|].
  apply Forall_app in Hline as [Hline Hje]. rewrite Forall_singleton in Hje.
  rewrite json_loads_snoc in Hk. destruct (decide (k' = k)) as [->|Hne].
  - rewrite lookup_insert_eq in Hk. injection Hk as <-.
    by apply json_loads_entry_nodup.
  - rewrite lookup_insert_ne in Hk by done. by apply IH.
Qed.

Lemma get_path_nodup (lines : list jline) (k : string) (e : entry) :
  Forall line_nodup lines →
  _get_path_from_reference_file lines k = Some e → entry_nodup e.
Proof.
  induction 1 as [|line lines Hline _ IH]; simpl; [done|].
  destruct (json_loads line !! k) as [e'|] eqn:Hk; [|done].
  intros [= <-]. by eapply json_loads_nodup.
Qed.

Lemma initial_entry_nodup (file_lines : option (list jline)) (k pt : string) :
  Forall line_nodup (default [] file_lines) →
  entry_nodup (initial_entry file_lines k pt).
Proof.
  intros Hlines. unfold initial_entry. destruct file_lines as [lines|]; simpl.
  - destruct (_get_path_from_reference_file lines k) as [e|] eqn:Hg; simpl.
    + by eapply get_path_nodup.
    + split; [constructor|apply map_Forall_empty].
  - split; [constructor|apply map_Forall_empty].
Qed.

Lemma update_entry_nodup (e : entry) (ref : reference) :
  entry_nodup e → entry_nodup (update_entry e ref).
Proof.
  intros [Hids Hstreams]. unfold update_entry.
  destruct (stream_truthy (ref_stream ref)); split; simpl; try done.
  - apply map_Forall_insert_2; [|done].
    destruct (streams e !! ref_stream ref); [apply uniques_list_NoDup|].
    apply NoDup_singleton.
  - apply uniques_list_NoDup.
Qed.

Lemma add_ref_nodup (file_lines : option (list jline)) (st st' : refs_state)
    (ref : reference) :
  state_ok st → entries_nodup st →
  Forall line_nodup (default [] file_lines) →
  add_ref file_lines st ref = Ok st' → entries_nodup st'.
Proof.
  intros Hok Hnd Hlines Hrun.
  pose proof (add_ref_step file_lines st ref Hok) as Hstep. simpl in Hstep.
  destruct (path_map st !! ref_key ref) as [i|].
  - destruct Hstep as (e & Hi & Hstep). rewrite Hstep in Hrun.
    injection Hrun as <-. unfold entries_nodup in *. simpl.
    apply Forall_insert; [done|]. simpl. apply update_entry_nodup.
    by apply (Forall_lookup_1 _ _ _ _ Hnd Hi).
  - rewrite Hstep in Hrun. injection Hrun as <-. unfold entries_nodup in *. simpl.
    apply Forall_app. split; [done|]. apply Forall_singleton. simpl.
    by apply update_entry_nodup, initial_entry_nodup.
Qed.

Lemma add_refs_nodup (file_lines : option (list jline)) (refs : list reference)
    (st : refs_state) :
  state_ok st → updated_ok file_lines st → entries_nodup st →
  Forall line_nodup (default [] file_lines) →
  ∃ st', add_refs file_lines st refs = Ok st' ∧
         updated_ok file_lines st' ∧ entries_nodup st'.
Proof.
  revert st. induction refs as [|ref refs IH]; intros st Hok Hupd Hnd Hlines.
  - by exists st.
  - destruct (add_ref_ok file_lines st ref Hok Hupd) as (st1 & Hrun & Hok1 & Hupd1 & _).
    pose proof (add_ref_nodup file_lines st st1 ref Hok Hnd Hlines Hrun) as Hnd1.
    destruct (IH st1 Hok1 Hupd1 Hnd1 Hlines) as (st' & Hrun' & ? & ?).
    exists st'. simpl. rewrite Hrun. simpl_result. by rewrite Hrun'.
Qed.

Lemma world_nodup_lines (w : world) (name : string) :
  world_nodup w → Forall line_nodup (default [] (ref_files w !! name)).
Proof.
  intros Hw. destruct (ref_files w !! name) as [lines|] eqn:Hl; simpl; [|done].
  by apply (Hw name lines Hl).
Qed.

Lemma world_nodup_append_line (name : string) (line : jline) (w : world) :
  world_nodup w → line_nodup line → world_nodup (append_line name line w).
Proof.
  intros Hw Hline. unfold world_nodup, append_line. simpl.
  apply map_Forall_insert_2; [|done].
  apply Forall_app. split; [by apply world_nodup_lines|by apply Forall_singleton].
Qed.

Lemma world_nodup_open_append (name : string) (w : world) :
  world_nodup w → world_nodup (open_append name w).
Proof.
  intros Hw. unfold open_append. destruct (ref_files w !! name); [done|].
  unfold world_nodup. simpl. by apply map_Forall_insert_2.
Qed.

Lemma world_nodup_rename (src dst : string) (w w' : world) :
  world_nodup w → os_rename src dst w = Ok w' → world_nodup w'.
Proof.
  intros Hw. unfold os_rename.
  destruct (ref_files w !! src) as [c|] eqn:Hsrc; [|done].
  intros [= <-]. unfold world_nodup. simpl. apply map_Forall_insert_2.
  - by apply (Hw src c Hsrc).
  - by apply map_Forall_delete.
Qed.

Lemma world_nodup_copy_line (tmp : string) (updated : gset string) (w : world)
    (line : jline) :
  world_nodup w → line_nodup line → world_nodup (copy_line tmp updated w line).
Proof.
  intros Hw Hline. unfold copy_line.
  generalize (elements (dom (json_loads line))). intros keys. revert w Hw.
  induction keys as [|key keys IH]; intros w Hw; [done|].
  simpl. apply IH. case_decide; [done|]. by apply world_nodup_append_line.
Qed.

Lemma world_nodup_copy_lines (tmp : string) (updated : gset string)
    (lines : list jline) (w : world) :
  world_nodup w → Forall line_nodup lines →
  world_nodup (foldl (copy_line tmp updated) w lines).
Proof.
  intros Hw Hlines. revert w Hw.
  induction Hlines as [|line lines Hline _ IH]; intros w Hw; [done|].
  simpl. by apply IH, world_nodup_copy_line.
Qed.

Lemma world_nodup_dump_paths (name : string) (ps : list (string * entry))
    (w : world) :
  world_nodup w → Forall (λ p, entry_nodup p.2) ps →
  world_nodup (dump_paths name ps w).
Proof.
  intros Hw Hps. unfold dump_paths. revert w Hw.
  induction Hps as [|p ps Hp _ IH]; intros w Hw; [done|].
  simpl. apply IH, world_nodup_append_line; [done|].
  apply Forall_singleton. by apply json_dump_entry_nodup.
Qed.

(** Whatever the batch and whatever the files of the workspace,
    [write_references] returns, and it keeps the lists of IDs of the
    reference files free of duplicates. *)
Lemma write_references_nodup (self : MetsSectionCreator) (ref_file : string)
    (w : world) :
  world_nodup w →
  ∃ w', write_references self ref_file w = Ok w' ∧ world_nodup w'.
Proof.
  intros Hw. unfold write_references.
  set (rf := os_path_join (workspace self) ref_file).
  set (tmp := rf +:+ ".tmp").
  destruct (add_refs_nodup (ref_files w !! rf) (references self) refs_init)
    as (st & -> & Hupd & Hnd).
  { apply state_ok_init. }
  { intros k. simpl. rewrite elem_of_empty, elem_of_nil. tauto. }
  { constructor. }
  { by apply world_nodup_lines. }
  simpl_result.
  assert (∃ w1, (if decide (paths_updated st ≠ ∅)
                 then match ref_files w !! rf with
                      | Some lines =>
                          Ok (dump_paths tmp (paths st)
                                (foldl (copy_line tmp (paths_updated st))
                                       (open_append tmp w) lines))
                      | None => Raise IOError
                      end
                 else Ok (dump_paths rf (paths st) w)) = Ok w1 ∧
               world_nodup w1) as (w1 & -> & Hw1).
  { case_decide as Hne.
    - apply set_choose_L in Hne as [k Hk]. apply Hupd in Hk as [_ Hk].
      pose proof (world_nodup_lines w rf Hw) as Hlines.
      destruct (ref_files w !! rf) as [lines|]; [|by apply elem_of_nil in Hk].
      eexists. split; [done|].
      apply world_nodup_dump_paths; [|done].
      apply world_nodup_copy_lines; [|done].
      by apply world_nodup_open_append.
    - eexists. split; [done|]. by apply world_nodup_dump_paths. }
  destruct (ref_files w1 !! tmp) as [c|] eqn:Htmp; [|by exists w1].
  unfold os_rename. rewrite Htmp. eexists. split; [done|].
  eapply world_nodup_rename; [exact Hw1|]. unfold os_rename. by rewrite Htmp.
Qed.

End nodup.

(** ** Sequences of flushes for one path *)

Section batches.
Context `{!Externals}.

Lemma flush_empty_batch (ws ref_file : string) (w : world) :
  ref_files w !! (os_path_join ws ref_file +:+ ".tmp") = None →
  write (init ws) "type" "version" None None false None ref_file w
  = Ok (init ws, w).
Proof.
  intros Htmp. rewrite write_no_elements by done.
  unfold write_references. simpl. simpl_result.
  rewrite decide_False by (intros Hne; by apply Hne).
  unfold dump_paths. simpl. by rewrite Htmp.
Qed.

Lemma flush_batch (ws ref_file : string) (P : pypath) (S : gset string)
    (md_id : string) (ids : list string) (w : world) :
  batch_inv ws ref_file (_parse_refs P) S w →
  ∃ w', write (add_references (init ws) P (md_id :: ids))
              "type" "version" None None false None ref_file w
        = Ok (init ws, w') ∧
        batch_inv ws ref_file (_parse_refs P)
                  (S ∪ list_to_set (md_id :: ids)) w'.
Proof.
  intros (Htmp & Hfmt & HS & _).
  set (k := _parse_refs P) in *.
  set (mk := λ md_id, {| ref_md_id := md_id; ref_stream := StreamNone;
                         ref_path := P; ref_path_type := "file" |}).
  assert (Forall (plain_ref k) (mk md_id :: (mk <$> ids))) as Hplain.
  { apply Forall_cons. split; [done|]. apply Forall_fmap, Forall_true. done. }
  assert (workspace (add_references (init ws) P (md_id :: ids)) = ws) as Hws
    by by rewrite add_references_spec.
  assert (references (add_references (init ws) P (md_id :: ids))
          = mk md_id :: (mk <$> ids)) as Hrefs
    by by rewrite add_references_spec.
  pose proof (same_path_flush (add_references (init ws) P (md_id :: ids))
                ref_file w k (mk md_id) (mk <$> ids)) as Hflush.
  cbv zeta in Hflush. rewrite Hws in Hflush.
  destruct (Hflush Hrefs Hplain Htmp Hfmt)
    as (w' & e' & Hw' & Hfiles & _ & _ & Hset & Hnd).
  destruct (same_path_flush_post ws ref_file w w' k "file" e' Htmp Hfmt Hfiles)
    as (Htmp' & Hfmt' & _ & Hinit' & refs & Hread & Hk).
  exists w'. split.
  - rewrite write_no_elements by (by rewrite add_references_spec).
    rewrite Hw'. simpl_result. by rewrite Hws.
  - split_and!; try done.
    + rewrite Hinit'. simpl. rewrite Hset. simpl in HS |- *. rewrite HS.
      do 3 f_equal. clear. induction ids as [|x ids IH]; [done|].
      simpl. by f_equal.
    + intros _. rewrite Hinit'. split; [done|]. by exists refs.
Qed.

Lemma flush_batches_inv (ws ref_file : string) (P : pypath)
    (batches : list (list string)) (S : gset string) (w : world) :
  batch_inv ws ref_file (_parse_refs P) S w →
  ∃ w', flush_batches (init ws) P ref_file batches w = Ok (init ws, w') ∧
        batch_inv ws ref_file (_parse_refs P)
                  (S ∪ list_to_set (mjoin batches)) w'.
Proof.
  revert S w. induction batches as [|ids batches IH]; intros S w Hinv.
  - exists w. split; [done|]. simpl. by rewrite (right_id_L ∅ (∪)).
  - assert (S ∪ list_to_set (mjoin (ids :: batches))
            = (S ∪ list_to_set ids) ∪ list_to_set (mjoin batches)) as ->.
    { change (mjoin (ids :: batches)) with (ids ++ mjoin batches).
      by rewrite list_to_set_app_L, (assoc_L (∪)). }
    cbn [flush_batches]. destruct ids as [|md_id ids].
    + change (add_references (init ws) P []) with (init ws).
      rewrite flush_empty_batch by apply Hinv. simpl_result.
      rewrite (right_id_L ∅ (∪) S). by apply IH.
    + destruct (flush_batch ws ref_file P S md_id ids w Hinv) as (w1 & -> & Hinv1).
      simpl_result. by apply IH.
Qed.

(** C5. References that map IDs to one path, without a stream, added
    and flushed in any number of batches (an ID may come several times,
    in one batch or in several), to an index that has no entry for the
    path yet: all the flushes return, and reading the index gives an
    entry for the path whose [md_ids] has no duplicates and consists of
    exactly the distinct IDs, N of them.  And for every batch, with
    streams or without: if no list of IDs in the reference files of the
    workspace has a duplicate (as in an empty workspace), none has one
    after [write_references], which returns. *)
Theorem md_ids_no_duplicates (ws ref_file : string) (P : pypath)
    (batches : list (list string)) (w : world) :
  let reference_file := os_path_join ws ref_file in
  let lines := default [] (ref_files w !! reference_file) in
  ref_files w !! (reference_file +:+ ".tmp") = None →
  index_format lines →
  _parse_refs P ∉ index_keys lines →
  mjoin batches ≠ [] →
  (∃ self' w' refs e,
     flush_batches (init ws) P ref_file batches w = Ok (self', w') ∧
     read_md_references ws ref_file w' = Some refs ∧
     refs !! _parse_refs P = Some e ∧
     NoDup (md_ids e) ∧
     list_to_set (md_ids e) =@{gset string} list_to_set (mjoin batches) ∧
     length (md_ids e) = size (list_to_set (mjoin batches) : gset string)) ∧
  world_nodup empty_world ∧
  (∀ self0 ref_file0 w0,
     world_nodup w0 →
     ∃ w0', write_references self0 ref_file0 w0 = Ok w0' ∧ world_nodup w0').
Proof.
  intros rf lines Htmp Hfmt Hnew Hids. split; [|split].
  - destruct (flush_batches_inv ws ref_file P batches ∅ w)
      as (w' & Hrun & _ & _ & HS & Hfinal).
    { split_and!; try done.
      unfold initial_entry. fold rf.
      destruct (ref_files w !! rf) as [ls|] eqn:Hls; simpl; [|done].
      subst lines. simpl in Hnew.
      by rewrite (proj2 (get_path_None ls _) Hnew). }
    rewrite (left_id_L ∅ (∪)) in HS, Hfinal.
    destruct Hfinal as (Hnd & refs & Hread & Hk).
    { destruct (mjoin batches) as [|x l]; [done|]. simpl.
      intros Hempty.
      assert (x ∈ (∅ : gset string)) as Hx
        by (rewrite <- Hempty; apply elem_of_union_l; by apply elem_of_singleton).
      by apply elem_of_empty in Hx. }
    eexists _, w', refs, _. split_and!; try done.
    rewrite <- HS. symmetry. by apply size_list_to_set.
  - apply map_Forall_empty.
  - intros self0 ref_file0 w0. apply write_references_nodup.
Qed.

End batches.

(** ** The filter operation *)

Section filter.
Context `{!Externals}.

Lemma foldl_extend_md_ids (l : list (string * entry)) (acc : list string) :
  foldl (λ ids kv, ids ++ md_ids kv.2) acc l = acc ++ mjoin ((md_ids ∘ snd) <$> l).
Proof.
  revert acc. induction l as [|kv l IH]; intros acc; simpl.
  - by rewrite app_nil_r.
  - by rewrite IH, <- app_assoc.
Qed.

Lemma foldl_select_stream (l : list (pystream * list string)) (s : pystream)
    (acc : list string) :
  NoDup l.*1 →
  foldl (λ ids kv, if decide (kv.1 = s) then kv.2 else ids) acc l
  = default acc ((list_to_map l : gmap pystream (list string)) !! s).
Proof.
  revert acc. induction l as [|[k v] l IH]; intros acc Hnd; simpl; [done|].
  apply NoDup_cons in Hnd as [Hk Hnd].
  rewrite IH by done. destruct (decide (k = s)) as [->|Hne].
  - rewrite lookup_insert_eq. simpl.
    by rewrite (not_elem_of_list_to_map_1 _ s Hk).
  - by rewrite lookup_insert_ne.
Qed.

Lemma stream_loop_lookup (m : gmap pystream (list string)) (s : pystream) :
  foldl (λ ids kv, if decide (kv.1 = s) then kv.2 else ids) [] (map_to_list m)
  = default [] (m !! s).
Proof.
  rewrite foldl_select_stream by apply NoDup_fst_map_to_list.
  by rewrite list_to_map_to_list.
Qed.


(** The unfiltered call on any mapping: the IDs of every entry. *)
Lemma get_md_references_no_filter (refs : gmap string entry) :
  get_md_references (Some refs) None StreamNone None
  = Ok (Some (list_to_set (mjoin ((md_ids ∘ snd) <$> map_to_list refs)))).
Proof.
  unfold get_md_references, filter_references. simpl.
  by rewrite foldl_extend_md_ids.
Qed.

(** C7, as the code has it. With no path, stream or directory filter,
    [get_md_references] returns the union of [md_ids] across every path
    of the mapping, whatever its [path_type]: directory entries are part
    of the union. *)
Theorem get_md_references_no_filter_union (refs : gmap string entry) :
  ∃ ids : gset string,
    get_md_references (Some refs) None StreamNone None = Ok (Some ids) ∧
    ∀ x, x ∈ ids ↔ ∃ p e, refs !! p = Some e ∧ x ∈ md_ids e.
Proof.
  eexists. split; [apply get_md_references_no_filter|].
  intros x. rewrite elem_of_list_to_set, list_elem_of_join. split.
  - intros (ids & Hx & Hin). apply list_elem_of_fmap in Hin as ([p e] & -> & Hpe).
    apply elem_of_map_to_list in Hpe. by exists p, e.
  - intros (p & e & Hpe & Hx). exists (md_ids e). split; [done|].
    apply list_elem_of_fmap. exists (p, e). split; [done|].
    by apply elem_of_map_to_list.
Qed.

(** [get_md_references] on a mapping always returns a set. *)
Lemma get_md_references_total (refs : gmap string entry) (path : option string)
    (stream : pystream) (directory : option string) :
  ∃ ids, get_md_references (Some refs) path stream directory = Ok (Some ids).
Proof.
  assert (∃ r, filter_references refs path stream directory = r ∧
               ((∃ ids, r = Ok ids) ∨ r = Raise KeyError)) as (r & Hr & Hcase).
  { eexists. split; [done|].
    unfold filter_references, getitem, mbind, result_bind.
    destruct directory as [d|], path as [p|], stream; simpl;
      repeat (case_match; simpl; simplify_eq); eauto. }
  unfold get_md_references. rewrite Hr.
  destruct Hcase as [[ids ->]| ->]; simpl; eauto.
Qed.

(** C9. For a mapping (not [None]) and a path, directory or stream that
    has no entry in it, [get_md_references] returns the empty set; and on
    a mapping it never raises, whatever it is asked for. *)
Theorem get_md_references_miss (refs : gmap string entry) (path : option string)
    (stream : pystream) (directory : option string) :
  (∃ ids, get_md_references (Some refs) path stream directory = Ok (Some ids)) ∧
  (no_entry refs path stream directory →
   get_md_references (Some refs) path stream directory = Ok (Some ∅)).
Proof.
  split; [apply get_md_references_total|].
  unfold get_md_references, filter_references, getitem.
  destruct 1 as [path' stream' d Hd Hmiss
                |p stream' directory' Hdir Hmiss
                |p e stream' directory' Hdir Hp Hs Hmiss].
  - assert (String.eqb d "" = false) as -> by by apply String.eqb_neq.
    simpl. rewrite Hmiss.
    destruct path', stream'; done.
  - destruct Hdir as [->| ->]; simpl; rewrite Hmiss; by destruct stream'.
  - destruct Hdir as [->| ->]; simpl; rewrite Hp; simpl;
      destruct stream'; try done; simpl;
      by rewrite stream_loop_lookup, Hmiss.
Qed.

End filter.

Lemma get_md_references_miss_witness :
  @get_md_references sample_externals (Some directory_refs)
    (Some "data/a.tif") (StreamInt 2) None = Ok (Some ∅).
Proof.
  apply (proj2 (@get_md_references_miss sample_externals directory_refs
                  (Some "data/a.tif") (StreamInt 2) None)).
  apply no_entry_path; [by left|]. vm_compute. reflexivity.
Defined.


(** C7, as stated, fails: on a mapping whose only entry is a directory
    the unfiltered call returns that directory's IDs, not the union over
    the file entries (which is empty). *)
Lemma no_filter_includes_directories :
  @get_md_references sample_externals (Some directory_refs) None StreamNone None
  = Ok (Some {[ "_d" ]}) ∧
  file_only_union directory_refs = ∅ ∧
  @get_md_references sample_externals (Some directory_refs) None StreamNone None
  ≠ Ok (Some (file_only_union directory_refs)).
Proof.
  split; [vm_compute; reflexivity|].
  split; [vm_compute; reflexivity|].
  vm_compute. discriminate.
Qed.

(** ** Reading an index *)

Section read.
Context `{!Externals}.

(** C10. When the reference file does not exist, [read_md_references]
    returns [None], not an empty mapping, and [get_md_references] of
    [None] is [None], not a set: no lookup on a missing index yields an
    empty set.  An index file that exists and is empty reads as the
    empty mapping, so the two are told apart. *)
Theorem missing_index_is_none (ws ref_file : string) (w : world)
    (path : option string) (stream : pystream) (directory : option string) :
  ref_files w !! os_path_join ws ref_file = None →
  read_md_references ws ref_file w = None ∧
  get_md_references (read_md_references ws ref_file w) path stream directory
  = Ok None ∧
  get_md_references (read_md_references ws ref_file w) path stream directory
  ≠ Ok (Some ∅) ∧
  read_md_references ws ref_file (open_append (os_path_join ws ref_file) w)
  = Some ∅.
Proof.
  intros Hmiss. unfold read_md_references, open_append. rewrite Hmiss. simpl.
  rewrite !lookup_insert_eq. done.
Qed.

End read.

Lemma missing_index_is_none_witness :
  read_md_references "ws" "refs.json" empty_world = None ∧
  @get_md_references sample_externals
    (read_md_references "ws" "refs.json" empty_world)
    (Some "data/a.tif") StreamNone None = Ok None.
Proof.
  pose proof (@missing_index_is_none sample_externals "ws" "refs.json"
                empty_world (Some "data/a.tif") StreamNone None) as Hthm.
  destruct Hthm as (Hread & Hget & _); [vm_compute; reflexivity|].
  split; [exact Hread | exact Hget].
Defined.

(** ** Metadata files *)

Section write_md.
Context `{!Externals}.

(** C3. Calling [write_md] twice for one element and one
    (mdtype, mdtypeversion, othermdtype, section): both calls return the
    pair ("_" + digest, file name), where the file name is made from the
    digest and the suffix (othermdtype when given, mdtype otherwise);
    the second call leaves the workspace as the first one left it (no
    write, nothing printed); and the two calls write the file at most
    once: exactly once when it was not there, not at all when it was. *)
Theorem write_md_idempotent (self : MetsSectionCreator) (E : Element)
    (mdtype mdtypeversion : string) (othermdtype section : option string)
    (stdout1 stdout2 : bool) (w : world) :
  let digest := generate_digest E in
  let suffix :=
    match othermdtype with
    | Some o => if String.eqb o "" then mdtype else o
    | None => mdtype
    end in
  let name := os_path_join (workspace self)
                (encode_path (digest +:+ "-" +:+ suffix +:+ "-amd.xml")) in
  let r1 := write_md self E mdtype mdtypeversion othermdtype section stdout1 w in
  let r2 := write_md self E mdtype mdtypeversion othermdtype section stdout2 r1.2 in
  r1.1 = ("_" +:+ digest, name) ∧
  r2.1 = r1.1 ∧
  r2.2 = r1.2 ∧
  is_Some (md_files r2.2 !! name) ∧
  ref_files r2.2 = ref_files w ∧
  match md_files w !! name with
  | None => ∃ data, md_files r2.2 = <[name := data]> (md_files w) ∧
                    events r2.2 = events w ++ [EvWrite name data]
  | Some _ => r2.2 = w
  end.
Proof.
  intros digest suffix name r1 r2.
  assert (r1.1 = ("_" +:+ digest, name)) as H1.
  { subst r1. unfold write_md. fold digest suffix name. by case_match. }
  assert (is_Some (md_files r1.2 !! name)) as [data Hdata].
  { subst r1. unfold write_md. fold digest suffix name.
    destruct (md_files w !! name) as [d|] eqn:Hw; simpl; [by eexists|].
    destruct stdout1; simpl; rewrite lookup_insert_eq; by eexists. }
  assert (r2 = r1) as H2.
  { subst r2. unfold write_md at 1. fold digest suffix name.
    rewrite Hdata, <- H1. by destruct r1. }
  rewrite H2. split_and!; try done.
  - subst r1. unfold write_md. by repeat case_match.
  - subst r1. unfold write_md. fold digest suffix name.
    destruct (md_files w !! name) as [d|] eqn:Hw; [done|].
    eexists. by destruct stdout1.
Qed.

End write_md.

(** ** The digest *)

Section digest.
Import Digest.













End digest.



(** ** References with a stream *)

Section streams.
Context `{!Externals}.

(** A reference whose stream is true in Python (a non-zero index, a
    non-empty key) changes the list of that stream only: the ID is in it,
    the list has no duplicates when it had none, and [md_ids] and the
    other streams stay as they were. *)
Lemma update_entry_stream (e : entry) (ref : reference) :
  stream_truthy (ref_stream ref) = true →
  md_ids (update_entry e ref) = md_ids e ∧
  (∀ s, s ≠ ref_stream ref → streams (update_entry e ref) !! s = streams e !! s) ∧
  ∃ ids, streams (update_entry e ref) !! ref_stream ref = Some ids ∧
         ref_md_id ref ∈ ids ∧
         (∀ x, x ∈ ids ↔ x = ref_md_id ref ∨
                         x ∈ default [] (streams e !! ref_stream ref)) ∧
         (NoDup (default [] (streams e !! ref_stream ref)) → NoDup ids).
Proof.
  intros Htruthy. unfold update_entry. rewrite Htruthy. simpl.
  split; [done|]. split; [intros s Hs; by rewrite lookup_insert_ne|].
  rewrite lookup_insert_eq. eexists. split; [done|].
  destruct (streams e !! ref_stream ref) as [old|]; simpl.
  - assert (∀ x, x ∈ _uniques_list old (ref_md_id ref)
                 ↔ x = ref_md_id ref ∨ x ∈ old) as Hmem.
    { intros x. unfold _uniques_list.
      by rewrite elem_of_elements, elem_of_union, elem_of_singleton,
        elem_of_list_to_set. }
    split_and!; [apply Hmem; by left|done|intros _; apply NoDup_elements].
  - split_and!; [by left| |intros _; apply NoDup_singleton].
    intros x. rewrite list_elem_of_singleton, elem_of_nil. tauto.
Qed.

(** A reference whose stream is false in Python ([None], but also the
    index 0) goes to [md_ids]; the streams stay as they were. *)
Lemma update_entry_no_stream (e : entry) (ref : reference) :
  stream_truthy (ref_stream ref) = false →
  streams (update_entry e ref) = streams e ∧
  NoDup (md_ids (update_entry e ref)) ∧
  ∀ x, x ∈ md_ids (update_entry e ref) ↔ x = ref_md_id ref ∨ x ∈ md_ids e.
Proof.
  intros Hfalsy. unfold update_entry. rewrite Hfalsy. simpl.
  split; [done|]. split; [apply NoDup_elements|].
  intros x. unfold _uniques_list.
  by rewrite elem_of_elements, elem_of_union, elem_of_singleton,
    elem_of_list_to_set.
Qed.

(** After the JSON round trip the streams of an entry are found under
    text keys only: an [int] index is not a key of an entry that was
    read from the file. *)
Lemma json_loads_entry_int_key (je : jentry) (n : Z) :
  streams (json_loads_entry je) !! StreamInt n = None.
Proof.
  simpl. generalize (j_streams je). intros l.
  induction l as [|[k ids] l IH] using rev_ind; [done|].
  rewrite foldl_app. simpl. by rewrite lookup_insert_ne.
Qed.

(** C4, on the code. [add_reference('_x', 'data/a.tif', stream=0)], then
    [add_reference('_y', 'data/a.tif', stream=1)], a flush to a new index
    and a read: the ID given with stream 0 is in [md_ids] of the entry and
    stream 0 has no list; only the stream 1 has one, under the key ["1"]
    that JSON gives it. *)
Theorem stream_zero_lands_in_md_ids :
  let self :=
    add_reference
      (add_reference (init "ws") "_x" (PathText "data/a.tif") (StreamInt 0) PathNone)
      "_y" (PathText "data/a.tif") (StreamInt 1) PathNone in
  ∃ w',
    write self "type" "version" None None false None "md-references.json"
          empty_world = Ok (init "ws", w') ∧
    read_md_references "ws" "md-references.json" w'
    = Some {[ "data/a.tif" :=
                {| path_type := "file";
                   streams := {[ StreamStr "1" := ["_y"] ]};
                   md_ids := ["_x"] |} ]} ∧
    get_md_references (read_md_references "ws" "md-references.json" w')
                      (Some "data/a.tif") (StreamInt 0) None = Ok (Some ∅) ∧
    get_md_references (read_md_references "ws" "md-references.json" w')
                      (Some "data/a.tif") StreamNone None = Ok (Some {[ "_x" ]}).
Proof.
  eexists. split; [vm_compute; reflexivity|].
  split; [vm_compute; reflexivity|].
  split; vm_compute; reflexivity.
Qed.

End streams.

(** ** The properties on examples *)

(** Outside the assumption made on the temporary file: a temporary file
    left over from an interrupted run is renamed over the index by the
    next flush, here one that only appends. *)
Example leftover_tmp_replaces_index :
  ∃ w',
    @write_references sample_externals
      (@add_reference sample_externals (init "ws") "_n" (PathText "data/c.tif")
         StreamNone PathNone)
      "refs.json" interrupted_world = Ok w' ∧
    ref_files w'
    = {[ "ws/refs.json" :=
           [[("data/z.tif",
              {| j_path_type := "file"; j_streams := []; j_md_ids := ["_z"] |})]] ]}.
Proof. eexists. split; vm_compute; reflexivity. Qed.

Lemma write_twice_merges_witness :
  ∃ c1 w1 c2 w2 refs e,
    @write sample_externals
      (@add_reference sample_externals (init "ws") "_abc" (PathText "data/b.tif")
         StreamNone PathNone)
      "type" "version" None None false None "refs.json" sample_world = Ok (c1, w1) ∧
    @write sample_externals
      (@add_reference sample_externals (init "ws") "_def" (PathText "data/b.tif")
         StreamNone PathNone)
      "type" "version" None None false None "refs.json" w1 = Ok (c2, w2) ∧
    read_md_references "ws" "refs.json" w2 = Some refs ∧
    refs !! "data/b.tif" = Some e ∧
    "_abc" ∈ md_ids e ∧ "_def" ∈ md_ids e.
Proof.
  apply (@write_twice_merges sample_externals "ws" "refs.json" sample_world
           (PathText "data/b.tif") "_abc" "_def" "type" "version" None None false None).
  - vm_compute. reflexivity.
  - vm_compute. constructor; [|constructor]. by eexists _, _.
Defined.

Lemma write_references_rewrite_or_append_witness :
  ∃ w', @write_references sample_externals sample_creator "refs.json" sample_world
        = Ok w' ∧
        ref_files w' !! "ws/refs.json.tmp" = None.
Proof.
  destruct (@write_references_rewrite_or_append sample_externals sample_creator
              "refs.json" sample_world)
    as (st & w' & _ & Hw & _ & _ & _ & _ & Htmp & _).
  - vm_compute. reflexivity.
  - vm_compute. constructor; [|constructor]. by eexists _, _.
  - exists w'. split; [exact Hw|exact Htmp].
Defined.

Lemma md_ids_no_duplicates_witness :
  ∃ self' w' refs e,
    @flush_batches sample_externals (init "ws") (PathText "data/a.tif") "refs.json"
      [["_a"; "_b"]; ["_a"]; []; ["_c"; "_b"]] sample_world = Ok (self', w') ∧
    read_md_references "ws" "refs.json" w' = Some refs ∧
    refs !! "data/a.tif" = Some e ∧
    NoDup (md_ids e) ∧
    list_to_set (md_ids e)
    =@{gset string} list_to_set (mjoin [["_a"; "_b"]; ["_a"]; []; ["_c"; "_b"]]) ∧
    length (md_ids e)
    = size (list_to_set (mjoin [["_a"; "_b"]; ["_a"]; []; ["_c"; "_b"]]) : gset string).
Proof.
  apply (@md_ids_no_duplicates sample_externals "ws" "refs.json"
           (PathText "data/a.tif") [["_a"; "_b"]; ["_a"]; []; ["_c"; "_b"]]
           sample_world).
  - vm_compute. reflexivity.
  - vm_compute. constructor; [|constructor]. by eexists _, _.
  - intros Hin. vm_compute in Hin.
    apply list_elem_of_singleton in Hin. discriminate.
  - discriminate.
Defined.

(** * Further properties *)

(** ** [write_references] on any workspace *)

Section any_workspace.
Context `{!Externals}.

Lemma changes_only_refl (names : list string) (w : world) : changes_only names w w.
Proof. split_and!; try done. exists []. by rewrite app_nil_r. Qed.

Lemma changes_only_trans (names : list string) (w1 w2 w3 : world) :
  changes_only names w1 w2 → changes_only names w2 w3 → changes_only names w1 w3.
Proof.
  intros (Hm1 & Hs1 & Hr1 & evs1 & He1) (Hm2 & Hs2 & Hr2 & evs2 & He2).
  split_and!; try congruence.
  - intros name Hname. by rewrite Hr2, Hr1.
  - exists (evs1 ++ evs2). by rewrite He2, He1, app_assoc.
Qed.

Lemma changes_only_append_line (names : list string) (name : string)
    (line : jline) (w : world) :
  name ∈ names → changes_only names w (append_line name line w).
Proof.
  intros Hin. split_and!; try done; [|by eexists].
  intros name' Hname'. simpl. apply lookup_insert_ne. by intros ->.
Qed.

Lemma changes_only_open_append (names : list string) (name : string) (w : world) :
  name ∈ names → changes_only names w (open_append name w).
Proof.
  intros Hin. unfold open_append.
  destruct (ref_files w !! name); [apply changes_only_refl|].
  split_and!; try done; [|by eexists].
  intros name' Hname'. simpl. apply lookup_insert_ne. by intros ->.
Qed.

Lemma changes_only_copy_lines (names : list string) (tmp : string)
    (updated : gset string) (lines : list jline) (w : world) :
  tmp ∈ names → changes_only names w (foldl (copy_line tmp updated) w lines).
Proof.
  intros Hin. revert w. induction lines as [|line lines IH]; intros w.
  - apply changes_only_refl.
  - simpl. eapply changes_only_trans; [|apply IH].
    unfold copy_line. generalize (elements (dom (json_loads line))).
    intros keys. revert w. induction keys as [|key keys IHk]; intros w.
    + apply changes_only_refl.
    + simpl. eapply changes_only_trans; [|apply IHk].
      case_decide; [apply changes_only_refl|by apply changes_only_append_line].
Qed.

Lemma changes_only_dump_paths (names : list string) (name : string)
    (ps : list (string * entry)) (w : world) :
  name ∈ names → changes_only names w (dump_paths name ps w).
Proof.
  intros Hin. unfold dump_paths. revert w.
  induction ps as [|p ps IH]; intros w; [apply changes_only_refl|].
  simpl. eapply changes_only_trans; [|apply IH].
  by apply changes_only_append_line.
Qed.

(** [write_references] returns and changes its two files only. *)
Lemma write_references_changes (self : MetsSectionCreator) (ref_file : string)
    (w : world) :
  let reference_file := os_path_join (workspace self) ref_file in
  let tmp := reference_file +:+ ".tmp" in
  ∃ w', write_references self ref_file w = Ok w' ∧
        changes_only [reference_file; tmp] w w' ∧
        ref_files w' !! tmp = None.
Proof.
  intros rf tmp. unfold write_references. fold rf. fold tmp.
  destruct (add_refs_init (ref_files w !! rf) (references self))
    as (st & -> & _ & Hupd & _).
  simpl_result.
  assert (∃ w1, (if decide (paths_updated st ≠ ∅)
                 then match ref_files w !! rf with
                      | Some lines =>
                          Ok (dump_paths tmp (paths st)
                                (foldl (copy_line tmp (paths_updated st))
                                       (open_append tmp w) lines))
                      | None => Raise IOError
                      end
                 else Ok (dump_paths rf (paths st) w)) = Ok w1 ∧
               changes_only [rf; tmp] w w1) as (w1 & -> & Hw1).
  { case_decide as Hne.
    - apply set_choose_L in Hne as [k Hk]. apply Hupd in Hk as [_ Hk].
      destruct (ref_files w !! rf) as [lines|]; [|by apply elem_of_nil in Hk].
      eexists. split; [done|].
      eapply changes_only_trans; [|apply changes_only_dump_paths; by right; left].
      eapply changes_only_trans; [|apply changes_only_copy_lines; by right; left].
      apply changes_only_open_append. by right; left.
    - eexists. split; [done|]. apply changes_only_dump_paths. by left. }
  destruct (ref_files w1 !! tmp) as [c|] eqn:Htmp.
  - unfold os_rename. rewrite Htmp. eexists. split; [done|]. split.
    + eapply changes_only_trans; [exact Hw1|].
      split_and!; try done; [|by eexists].
      intros name Hname. simpl.
      rewrite lookup_insert_ne by (intros ->; apply Hname; by left).
      apply lookup_delete_ne. intros ->. apply Hname. by right; left.
    + simpl. rewrite lookup_insert_ne by apply not_eq_sym, tmp_name_ne.
      apply lookup_delete_eq.
  - by exists w1.
Qed.


(** X2. A flush without references writes nothing: with no temporary
    file left over the workspace stays as it is, and an index file that
    does not exist is not created.  A left-over temporary file is still
    renamed over the index. *)
Theorem write_references_empty (self : MetsSectionCreator) (ref_file : string)
    (w : world) :
  let reference_file := os_path_join (workspace self) ref_file in
  let tmp := reference_file +:+ ".tmp" in
  references self = [] →
  write_references self ref_file w
  = match ref_files w !! tmp with
    | Some _ => os_rename tmp reference_file w
    | None => Ok w
    end.
Proof.
  intros rf tmp Hrefs.
  unfold write_references. fold rf. fold tmp. rewrite Hrefs. simpl. simpl_result.
  rewrite decide_False by (intros Hne; by apply Hne). by unfold dump_paths.
Qed.

End any_workspace.

(** ** What a flush does to each path *)

Section per_path.
Context `{!Externals}.

Local Abbreviation entries st := (list_to_map (paths st) : gmap string entry).

Lemma list_to_map_update (l : list (string * entry)) (i : nat) (k : string)
    (e e' : entry) :
  NoDup l.*1 → l !! i = Some (k, e) →
  (list_to_map (<[i := (k, e')]> l) : gmap string entry)
  = <[k := e']> (list_to_map l).
Proof.
  revert i. induction l as [|[k0 e0] l IH]; intros i Hnd Hi; [done|].
  apply NoDup_cons in Hnd as [Hk0 Hnd]. destruct i as [|i]; simpl in *.
  - injection Hi as -> ->. by rewrite insert_insert_eq.
  - rewrite (IH i) by done. apply insert_insert_ne. intros ->.
    apply Hk0. apply list_elem_of_fmap. exists (k, e). split; [done|].
    by eapply list_elem_of_lookup_2.
Qed.

(** One iteration, as a change of the map from paths to entries. *)
Lemma add_ref_entries (file_lines : option (list jline)) (st : refs_state)
    (ref : reference) :
  state_ok st → updated_ok file_lines st →
  ∃ st', add_ref file_lines st ref = Ok st' ∧
         state_ok st' ∧ updated_ok file_lines st' ∧
         entries st'
         = <[ref_key ref :=
               update_entry
                 (default (initial_entry file_lines (ref_key ref) (ref_path_type ref))
                          (entries st !! ref_key ref)) ref]> (entries st).
Proof.
  intros Hok Hupd.
  destruct (add_ref_ok file_lines st ref Hok Hupd) as (st' & Hrun & Hok' & Hupd' & _).
  exists st'. split_and!; try done.
  pose proof (add_ref_step file_lines st ref Hok) as Hstep. simpl in Hstep.
  pose proof (state_ok_NoDup st Hok) as Hnd.
  destruct (path_map st !! ref_key ref) as [i|] eqn:Hpm.
  - destruct Hstep as (e & Hi & Hstep). rewrite Hstep in Hrun.
    injection Hrun as <-. simpl.
    assert (entries st !! ref_key ref = Some e) as ->.
    { apply elem_of_list_to_map; [done|]. by eapply list_elem_of_lookup_2. }
    simpl. by eapply list_to_map_update.
  - rewrite Hstep in Hrun. injection Hrun as <-. simpl.
    assert (ref_key ref ∉ (paths st).*1) as Hnew.
    { rewrite state_ok_keys, Hpm by done. by intros [? ?]. }
    rewrite (not_elem_of_list_to_map_1 _ _ Hnew). simpl.
    by apply list_to_map_snoc.
Qed.

(** The loop, path by path: the entry of a path is the one it started
    from, to which the references of the batch for this path were applied
    in order. *)
Lemma add_refs_entries (file_lines : option (list jline)) (refs : list reference)
    (st : refs_state) :
  state_ok st → updated_ok file_lines st →
  ∃ st', add_refs file_lines st refs = Ok st' ∧
         state_ok st' ∧ updated_ok file_lines st' ∧
         ∀ k, entries st' !! k
              = match refs_for k refs with
                | [] => entries st !! k
                | r :: rs =>
                    Some (foldl update_entry
                            (default (initial_entry file_lines k (ref_path_type r))
                                     (entries st !! k)) (r :: rs))
                end.
Proof.
  revert st. induction refs as [|ref refs IH]; intros st Hok Hupd.
  - by exists st.
  - destruct (add_ref_entries file_lines st ref Hok Hupd)
      as (st1 & Hrun1 & Hok1 & Hupd1 & Hmap1).
    destruct (IH st1 Hok1 Hupd1) as (st' & Hrun & Hok' & Hupd' & Hmap).
    exists st'. simpl. rewrite Hrun1. simpl_result. split_and!; try done.
    intros k. rewrite (Hmap k), Hmap1. unfold refs_for. rewrite filter_cons.
    destruct (decide (ref_key ref = k)) as [<-|Hne].
    + rewrite lookup_insert_eq. by destruct (filter _ refs).
    + by rewrite lookup_insert_ne.
Qed.

(** Reading the lines that [dump_paths] writes for [ps] after other
    lines. *)
Lemma read_fresh_lines (base : gmap string entry) (ps : list (string * entry))
    (k : string) :
  NoDup ps.*1 →
  foldl (λ references line, json_loads line ∪ references) base
        (json_dump_path <$> ps) !! k
  = match (list_to_map ps : gmap string entry) !! k with
    | Some e => Some (json_loads_entry (json_dump_entry e))
    | None => base !! k
    end.
Proof.
  induction ps as [|[k0 e0] ps IH] using rev_ind; intros Hnd; [done|].
  rewrite fmap_app in Hnd. apply NoDup_app in Hnd as (Hnd & Hk0 & _).
  assert (k0 ∉ ps.*1) as Hnew.
  { intros Hin. apply (Hk0 k0 Hin). by left. }
  rewrite fmap_app, foldl_app, list_to_map_snoc by done. simpl.
  unfold json_dump_path at 1. simpl. rewrite json_loads_one.
  destruct (decide (k0 = k)) as [->|Hne].
  - rewrite lookup_insert_eq. apply lookup_union_Some_l, lookup_singleton_eq.
  - rewrite lookup_insert_ne by done. rewrite lookup_union_r; [by apply IH|].
    by apply lookup_singleton_ne.
Qed.

(** Reading a file from which lines for other paths were dropped. *)
Lemma read_filtered_lines (P : jline → Prop) `{!∀ l, Decision (P l)}
    (lines : list jline) (k : string) :
  index_format lines →
  (∀ je, [(k, je)] ∈ lines → P [(k, je)]) →
  foldl (λ references line, json_loads line ∪ references) ∅ (filter P lines) !! k
  = foldl (λ references line, json_loads line ∪ references) ∅ lines !! k.
Proof.
  induction lines as [|line lines IH] using rev_ind; intros Hfmt HP; [done|].
  apply Forall_app in Hfmt as [Hfmt Hline]. rewrite Forall_singleton in Hline.
  destruct Hline as (k0 & je & ->).
  assert (∀ je, [(k, je)] ∈ lines → P [(k, je)]) as HP'.
  { intros je' Hin. apply HP, elem_of_app. by left. }
  rewrite filter_app, !foldl_app. simpl. rewrite filter_cons, filter_nil.
  destruct (decide (P [(k0, je)])) as [Hp|Hp]; simpl.
  - rewrite !json_loads_one. destruct (decide (k0 = k)) as [->|Hne].
    + by rewrite !(lookup_union_Some_l _ _ _ _ (lookup_singleton_eq _ _)).
    + rewrite !lookup_union_r by (by apply lookup_singleton_ne). by apply IH.
  - rewrite json_loads_one. assert (k0 ≠ k) as Hne.
    { intros ->. apply Hp, HP, elem_of_app. right. by left. }
    rewrite lookup_union_r by (by apply lookup_singleton_ne). by apply IH.
Qed.

(** The file after [write_references], for an index in the index format
    without a left-over temporary file. *)
Lemma write_references_lines (self : MetsSectionCreator) (ref_file : string)
    (w : world) :
  let reference_file := os_path_join (workspace self) ref_file in
  let tmp := reference_file +:+ ".tmp" in
  let lines := default [] (ref_files w !! reference_file) in
  let touched : gset string := list_to_set (ref_key <$> references self) in
  ref_files w !! tmp = None →
  index_format lines →
  ∃ st w',
    add_refs (ref_files w !! reference_file) refs_init (references self) = Ok st ∧
    write_references self ref_file w = Ok w' ∧
    state_ok st ∧
    list_to_set (paths st).*1 = touched ∧
    ref_files w'
    = if decide (references self = []) then ref_files w
      else <[reference_file := filter (untouched touched) lines
                               ++ (json_dump_path <$> paths st)]> (ref_files w).
Proof.
  intros rf tmp lines touched Htmp Hfmt.
  destruct (add_refs_init (ref_files w !! rf) (references self))
    as (st & Hrun & Hok & Hupd & Hkeys).
  fold touched in Hkeys. fold lines in Hupd.
  assert (∀ k, k ∈ paths_updated st ↔ k ∈ touched ∧ k ∈ index_keys lines) as Hupd'.
  { intros k. by rewrite (Hupd k), <- Hkeys, elem_of_list_to_set. }
  assert (paths_updated st ≠ ∅ → is_Some (ref_files w !! rf)) as Hsome.
  { intros [k Hk]%set_choose_L. apply Hupd' in Hk as [_ Hk].
    subst lines. destruct (ref_files w !! rf); [done|].
    by apply elem_of_nil in Hk. }
  pose proof (write_references_run self ref_file w st Htmp Hfmt Hrun Hsome) as Hw.
  fold rf tmp lines in Hw.
  eexists st, _. split; [done|]. split; [exact Hw|]. split; [done|]. split; [done|].
  assert (filter (untouched (paths_updated st)) lines
          = filter (untouched touched) lines) as Hfilter.
  { apply filter_ext_in. intros line Hline.
    unfold index_format in Hfmt. rewrite Forall_forall in Hfmt.
    destruct (Hfmt line Hline) as (k & je & ->).
    rewrite !untouched_one, Hupd'.
    assert (k ∈ index_keys lines); [|tauto].
    apply index_keys_one_key; [by apply Forall_forall|eauto]. }
  destruct (decide (references self = [])) as [Hnil|Hnil].
  - rewrite Hnil in Hrun. simpl in Hrun. injection Hrun as <-. simpl.
    rewrite decide_False by (intros Hne; by apply Hne). done.
  - assert (paths st ≠ []) as Hps.
    { intros Hp. rewrite Hp in Hkeys. simpl in Hkeys.
      destruct (references self) as [|r rs]; [done|].
      subst touched. simpl in Hkeys.
      assert (ref_key r ∈ (∅ : gset string)) as Hin
        by (rewrite Hkeys; apply elem_of_union_l, elem_of_singleton; done).
      by apply elem_of_empty in Hin. }
    destruct (decide (paths_updated st ≠ ∅)) as [Hne|He]; simpl.
    + by rewrite Hfilter.
    + destruct (paths st) as [|p ps] eqn:Hp; [done|]. simpl.
      f_equal. f_equal. symmetry. rewrite <- Hfilter.
      assert (paths_updated st = ∅) as -> by (by apply dec_stable).
      clear. induction lines as [|l ls IH]; [done|].
      rewrite filter_cons, decide_True; [by f_equal|].
      unfold untouched. apply disjoint_empty_r.
Qed.

Lemma refs_for_nil (k : string) (refs : list reference) :
  refs_for k refs = [] ↔ k ∉ (list_to_set (ref_key <$> refs) : gset string).
Proof.
  unfold refs_for. rewrite elem_of_list_to_set, list_elem_of_fmap. split.
  - intros Hnil (r & -> & Hr).
    assert (r ∈ filter (λ r0, ref_key r0 = ref_key r) refs) as Hin
      by by apply list_elem_of_filter.
    rewrite Hnil in Hin. by apply elem_of_nil in Hin.
  - intros Hno. destruct (filter _ refs) as [|r rs] eqn:Hf; [done|].
    exfalso. assert (r ∈ filter (λ r0, ref_key r0 = k) refs) as Hin
      by (rewrite Hf; by left).
    apply list_elem_of_filter in Hin as [<- Hin]. apply Hno. by exists r.
Qed.

(** The index after a flush, path by path. *)
Lemma flush_entries (self : MetsSectionCreator) (ref_file : string) (w : world) :
  let reference_file := os_path_join (workspace self) ref_file in
  ref_files w !! (reference_file +:+ ".tmp") = None →
  index_format (default [] (ref_files w !! reference_file)) →
  ∃ w', write_references self ref_file w = Ok w' ∧
        ∀ k, read_entry (workspace self) ref_file w' k
             = match refs_for k (references self) with
               | [] => read_entry (workspace self) ref_file w k
               | r :: rs =>
                   Some (json_loads_entry (json_dump_entry
                           (foldl update_entry
                              (initial_entry (ref_files w !! reference_file) k
                                             (ref_path_type r))
                              (r :: rs))))
               end.
Proof.
  intros rf Htmp Hfmt.
  destruct (write_references_lines self ref_file w Htmp Hfmt)
    as (st & w' & Hrun & Hw & Hok & Hkeys & Hfiles).
  fold rf in Hrun, Hfiles.
  destruct (add_refs_entries (ref_files w !! rf) (references self) refs_init)
    as (st2 & Hrun2 & _ & _ & Hentries).
  { apply state_ok_init. }
  { intros k. simpl. rewrite elem_of_empty, elem_of_nil. tauto. }
  rewrite Hrun in Hrun2. injection Hrun2 as <-.
  exists w'. split; [done|]. intros k. specialize (Hentries k). simpl in Hentries.
  unfold read_entry, read_md_references. fold rf.
  destruct (decide (references self = [])) as [Hnil|Hnil].
  - rewrite Hfiles, Hnil. done.
  - rewrite Hfiles, lookup_insert_eq. simpl. rewrite foldl_app.
    rewrite read_fresh_lines by (by apply state_ok_NoDup).
    rewrite Hentries. destruct (refs_for k (references self)) as [|r rs] eqn:Hk; [|done].
    apply refs_for_nil in Hk.
    rewrite read_filtered_lines; [by destruct (ref_files w !! rf)|done|].
    intros je _. by apply untouched_one.
Qed.


End per_path.

(** ** Flushes merge *)

Section merge.
Context `{!Externals}.

Lemma foldl_update_md_ids (rs : list reference) (e : entry) (x : string) :
  x ∈ md_ids (foldl update_entry e rs)
  ↔ x ∈ md_ids e ∨
    ∃ r, r ∈ rs ∧ stream_truthy (ref_stream r) = false ∧ ref_md_id r = x.
Proof.
  revert e. induction rs as [|r rs IH]; intros e; simpl.
  - split; [by left|]. intros [?|(r & Hr & _)]; [done|]. by apply elem_of_nil in Hr.
  - rewrite IH. destruct (stream_truthy (ref_stream r)) eqn:Hs.
    + destruct (update_entry_stream e r Hs) as (-> & _). split.
      * intros [?|(r' & Hr' & ?)]; [by left|]. right. exists r'. split; [by right|done].
      * intros [?|(r' & Hr' & Hs' & ?)]; [by left|].
        apply elem_of_cons in Hr' as [->|Hr']; [congruence|].
        right. by exists r'.
    + destruct (update_entry_no_stream e r Hs) as (_ & _ & Hmem).
      rewrite Hmem. split.
      * intros [[->|?]|(r' & Hr' & ?)]; [right|by left|right].
        -- exists r. split; [by left|done].
        -- exists r'. split; [by right|done].
      * intros [?|(r' & Hr' & Hs' & Hx)]; [left; by right|].
        apply elem_of_cons in Hr' as [->|Hr']; [left; by left|].
        right. by exists r'.
Qed.

Lemma foldl_update_path_type (rs : list reference) (e : entry) :
  path_type (foldl update_entry e rs) = path_type e.
Proof.
  revert e. induction rs as [|r rs IH]; intros e; [done|].
  simpl. rewrite IH. unfold update_entry. by destruct (stream_truthy _).
Qed.

Lemma foldl_update_md_ids_NoDup (rs : list reference) (e : entry) :
  NoDup (md_ids e) ∨ (∃ r, r ∈ rs ∧ stream_truthy (ref_stream r) = false) →
  NoDup (md_ids (foldl update_entry e rs)).
Proof.
  revert e. induction rs as [|r rs IH]; intros e Hcase; simpl.
  - destruct Hcase as [?|(r & Hr & _)]; [done|]. by apply elem_of_nil in Hr.
  - apply IH. destruct (stream_truthy (ref_stream r)) eqn:Hs.
    + destruct (update_entry_stream e r Hs) as (-> & _).
      destruct Hcase as [?|(r' & Hr' & Hs')]; [by left|].
      apply elem_of_cons in Hr' as [->|Hr']; [congruence|]. right. by exists r'.
    + left. by apply update_entry_no_stream.
Qed.

(** X4. After a flush (index in the index format, no left-over temporary
    file), every reference of the batch that has no stream (or a stream
    that is false in Python) is in the index: reading the index gives an
    entry for the path of the reference, whose [md_ids] has the ID of the
    reference and no duplicates. *)
Theorem flush_adds_ids (self : MetsSectionCreator) (ref_file : string) (w : world)
    (r : reference) :
  let reference_file := os_path_join (workspace self) ref_file in
  ref_files w !! (reference_file +:+ ".tmp") = None →
  index_format (default [] (ref_files w !! reference_file)) →
  r ∈ references self →
  stream_truthy (ref_stream r) = false →
  ∃ w' e, write_references self ref_file w = Ok w' ∧
          read_entry (workspace self) ref_file w' (ref_key r) = Some e ∧
          ref_md_id r ∈ md_ids e ∧
          NoDup (md_ids e).
Proof.
  intros rf Htmp Hfmt Hin Hplain.
  destruct (flush_entries self ref_file w Htmp Hfmt) as (w' & Hw & Hread).
  specialize (Hread (ref_key r)).
  assert (r ∈ refs_for (ref_key r) (references self)) as Hr
    by by apply list_elem_of_filter.
  destruct (refs_for (ref_key r) (references self)) as [|r0 rs] eqn:Hrs;
    [by apply elem_of_nil in Hr|].
  eexists w', _. split; [done|]. split; [exact Hread|]. split.
  - change (md_ids (json_loads_entry (json_dump_entry ?e))) with (md_ids e).
    apply foldl_update_md_ids. right. by exists r.
  - change (md_ids (json_loads_entry (json_dump_entry ?e))) with (md_ids e).
    apply foldl_update_md_ids_NoDup. right. by exists r.
Qed.

Lemma index_keys_app (l1 l2 : list jline) :
  index_keys (l1 ++ l2) = index_keys l1 ++ index_keys l2.
Proof. unfold index_keys. apply bind_app. Qed.

Lemma index_keys_dump (ps : list (string * entry)) :
  index_keys (json_dump_path <$> ps) = ps.*1.
Proof.
  unfold index_keys. induction ps as [|[k e] ps IH]; [done|].
  simpl. f_equal. exact IH.
Qed.

Lemma index_keys_filter (P : jline → Prop) `{!∀ l, Decision (P l)}
    (lines : list jline) :
  index_keys (filter P lines) `sublist_of` index_keys lines.
Proof.
  unfold index_keys. induction lines as [|l lines IH]; [done|].
  rewrite filter_cons. destruct (decide (P l)); simpl.
  - by apply sublist_app.
  - by apply sublist_inserts_l.
Qed.

(** Reading lines after a start. *)
Lemma read_lines_base (base : gmap string entry) (lines : list jline) (k : string) :
  foldl (λ references line, json_loads line ∪ references) base lines !! k
  = match foldl (λ references line, json_loads line ∪ references) ∅ lines !! k with
    | Some e => Some e
    | None => base !! k
    end.
Proof.
  revert base. induction lines as [|l lines IH]; intros base; [done|].
  simpl. rewrite (IH (json_loads l ∪ base)), (IH (json_loads l ∪ ∅)).
  destruct (foldl _ ∅ lines !! k); [done|].
  destruct (json_loads l !! k) as [e|] eqn:Hl.
  - by rewrite !(lookup_union_Some_l _ _ _ _ Hl).
  - by rewrite !lookup_union_r.
Qed.

Lemma read_lines_None (lines : list jline) (k : string) :
  k ∉ index_keys lines →
  foldl (λ references line, json_loads line ∪ references) ∅ lines !! k = None.
Proof.
  induction lines as [|l lines IH] using rev_ind; intros Hk; [done|].
  rewrite index_keys_app, elem_of_app in Hk.
  rewrite foldl_app. simpl. rewrite lookup_union_r.
  - apply IH. tauto.
  - apply not_elem_of_dom. rewrite dom_json_loads, elem_of_list_to_set.
    unfold index_keys in Hk. simpl in Hk. rewrite app_nil_r in Hk. tauto.
Qed.

(** In an index with one line per path the writer, which takes the
    first line of a path, and the reader, which takes the last, find the
    same entry. *)
Lemma get_path_read (lines : list jline) (k : string) :
  NoDup (index_keys lines) →
  _get_path_from_reference_file lines k
  = foldl (λ references line, json_loads line ∪ references) ∅ lines !! k.
Proof.
  induction lines as [|l lines IH]; intros Hnd; [done|].
  change (index_keys (l :: lines)) with (l.*1 ++ index_keys lines) in Hnd.
  apply NoDup_app in Hnd as (_ & Hdisj & Hnd).
  simpl. rewrite read_lines_base.
  destruct (json_loads l !! k) as [e|] eqn:Hl.
  - assert (k ∈ l.*1) as Hin.
    { apply (elem_of_list_to_set (C:=gset string)). rewrite <- dom_json_loads.
      apply elem_of_dom. eauto. }
    rewrite (read_lines_None lines k (Hdisj k Hin)).
    by rewrite (lookup_union_Some_l _ _ _ _ Hl).
  - rewrite IH by done. destruct (foldl _ ∅ lines !! k); [done|].
    by rewrite lookup_union_r.
Qed.

Lemma initial_entry_read (ws ref_file : string) (w : world) (k pt : string) :
  NoDup (index_keys (default [] (ref_files w !! os_path_join ws ref_file))) →
  initial_entry (ref_files w !! os_path_join ws ref_file) k pt
  = default (_setup_new_path pt) (read_entry ws ref_file w k).
Proof.
  intros Hnd. unfold initial_entry, read_entry, read_md_references.
  destruct (ref_files w !! os_path_join ws ref_file) as [lines|]; [|done].
  simpl in *. by rewrite get_path_read.
Qed.

(** The state of the index that flushes keep. *)
Lemma write_references_index_ok (self : MetsSectionCreator) (ref_file : string)
    (w : world) :
  let reference_file := os_path_join (workspace self) ref_file in
  index_ok reference_file w →
  index_ok reference_file empty_world ∧
  ∃ w', write_references self ref_file w = Ok w' ∧ index_ok reference_file w'.
Proof.
  intros rf (Htmp & Hfmt & Hnd). split.
  { split_and!; [done| |]; simpl; rewrite lookup_empty; constructor. }
  destruct (write_references_lines self ref_file w Htmp Hfmt)
    as (st & w' & Hrun & Hw & Hok & Hkeys & Hfiles).
  fold rf in Hfiles. exists w'. split; [done|]. unfold index_ok.
  destruct (decide (references self = [])) as [Hnil|Hnil]; rewrite Hfiles.
  { done. }
  rewrite lookup_insert_ne by apply not_eq_sym, tmp_name_ne.
  rewrite lookup_insert_eq. simpl. split_and!; [done| |].
  - apply Forall_app. split; [by apply index_format_filter|].
    apply Forall_fmap, Forall_true. intros [k e]. by eexists _, _.
  - rewrite index_keys_app, index_keys_dump. apply NoDup_app. split_and!.
    + eapply sublist_NoDup; [exact Hnd|]. apply index_keys_filter.
    + intros k Hk Hin.
      apply index_keys_one_key in Hk as [je Hk]; [|by apply index_format_filter].
      apply list_elem_of_filter in Hk as [Hun _]. apply untouched_one in Hun.
      apply Hun. rewrite <- Hkeys. by apply elem_of_list_to_set.
    + by apply state_ok_NoDup.
Qed.

(** X5. An index with no temporary file beside it, one key per line and
    one line per path stays so under every flush, whatever the batch; a
    workspace in which the index does not exist yet is in this state. *)
Theorem index_ok_preserved (self : MetsSectionCreator) (ref_file : string)
    (w : world) :
  let reference_file := os_path_join (workspace self) ref_file in
  index_ok reference_file w →
  index_ok reference_file empty_world ∧
  ∃ w', write_references self ref_file w = Ok w' ∧ index_ok reference_file w'.
Proof. apply write_references_index_ok. Qed.

(** The entries of the index after a flush, from those before. *)
Lemma flush_merges_entries (self : MetsSectionCreator) (ref_file : string) (w : world) :
  let reference_file := os_path_join (workspace self) ref_file in
  let ws := workspace self in
  index_ok reference_file w →
  ∃ w', write_references self ref_file w = Ok w' ∧
    ∀ k,
      match refs_for k (references self) with
      | [] => read_entry ws ref_file w' k = read_entry ws ref_file w k
      | r :: rs =>
          ∃ e', read_entry ws ref_file w' k = Some e' ∧
                path_type e'
                = default (ref_path_type r) (path_type <$> read_entry ws ref_file w k) ∧
                ∀ x, x ∈ md_ids e'
                     ↔ x ∈ default [] (md_ids <$> read_entry ws ref_file w k) ∨
                       ∃ r', r' ∈ references self ∧ ref_key r' = k ∧
                             stream_truthy (ref_stream r') = false ∧
                             ref_md_id r' = x
      end.
Proof.
  intros rf ws (Htmp & Hfmt & Hnd).
  destruct (flush_entries self ref_file w Htmp Hfmt) as (w' & Hw & Hread).
  exists w'. split; [done|]. intros k. specialize (Hread k).
  destruct (refs_for k (references self)) as [|r rs] eqn:Hrs; [done|].
  eexists. split; [exact Hread|].
  fold rf in Hread |- *. unfold rf, ws. rewrite initial_entry_read by done.
  change (md_ids (json_loads_entry (json_dump_entry ?e))) with (md_ids e).
  change (path_type (json_loads_entry (json_dump_entry ?e))) with (path_type e).
  split.
  - rewrite foldl_update_path_type.
    by destruct (read_entry (workspace self) ref_file w k).
  - intros x. rewrite foldl_update_md_ids, <- Hrs.
    assert (∀ r', r' ∈ refs_for k (references self)
                  ↔ r' ∈ references self ∧ ref_key r' = k) as Hmem.
    { intros r'. unfold refs_for. rewrite list_elem_of_filter. tauto. }
    assert (md_ids (default (_setup_new_path (ref_path_type r))
                            (read_entry (workspace self) ref_file w k))
            = default [] (md_ids <$> read_entry (workspace self) ref_file w k)) as ->
      by by destruct (read_entry (workspace self) ref_file w k).
    split; (intros [?|(r' & Hr' & ?)]; [by left|right; exists r']).
    + apply Hmem in Hr'. tauto.
    + split; [apply Hmem|]; tauto.
Qed.

(** X6. Flushes merge, they do not overwrite.  For an index with one
    line per path and any batch: a path the batch does not reference
    reads back as before; a path it references reads back with the
    [path_type] it had (with the type of the first reference when it is
    new) and with [md_ids] holding exactly the IDs it had and the IDs of
    the references of the batch for this path that have no stream. *)
Theorem flush_merges (self : MetsSectionCreator) (ref_file : string) (w : world) :
  let reference_file := os_path_join (workspace self) ref_file in
  let ws := workspace self in
  index_ok reference_file w →
  ∃ w', write_references self ref_file w = Ok w' ∧
    ∀ k,
      match refs_for k (references self) with
      | [] => read_entry ws ref_file w' k = read_entry ws ref_file w k
      | r :: rs =>
          ∃ e', read_entry ws ref_file w' k = Some e' ∧
                path_type e'
                = default (ref_path_type r) (path_type <$> read_entry ws ref_file w k) ∧
                ∀ x, x ∈ md_ids e'
                     ↔ x ∈ default [] (md_ids <$> read_entry ws ref_file w k) ∨
                       ∃ r', r' ∈ references self ∧ ref_key r' = k ∧
                             stream_truthy (ref_stream r') = false ∧
                             ref_md_id r' = x
      end.
Proof. apply flush_merges_entries. Qed.

End merge.

(** ** Streams through JSON *)

Section streams_json.
Context `{!Externals}.

Lemma loads_streams_elem (l : list (string * list string)) (s : string)
    (ids : list string) :
  foldl (λ m kv, <[StreamStr kv.1 := kv.2]> m)
        (∅ : gmap pystream (list string)) l !! StreamStr s = Some ids →
  (s, ids) ∈ l.
Proof.
  induction l as [|[s0 v0] l IH] using rev_ind; [done|].
  rewrite foldl_app, elem_of_app. simpl.
  destruct (decide (s0 = s)) as [->|Hne].
  - rewrite lookup_insert_eq. intros [= ->]. right. by left.
  - rewrite lookup_insert_ne by congruence. intros Hl. left. by apply IH.
Qed.

Lemma loads_streams_is_Some (l : list (string * list string)) (s : string) :
  s ∈ l.*1 →
  is_Some (foldl (λ m kv, <[StreamStr kv.1 := kv.2]> m)
                 (∅ : gmap pystream (list string)) l !! StreamStr s).
Proof.
  induction l as [|[s0 v0] l IH] using rev_ind; [by intros ?%elem_of_nil|].
  rewrite fmap_app, foldl_app, elem_of_app. simpl. intros Hin.
  destruct (decide (s0 = s)) as [->|Hne].
  - rewrite lookup_insert_eq. by eexists.
  - rewrite lookup_insert_ne by congruence. apply IH.
    destruct Hin as [?|Hin]; [done|]. apply list_elem_of_singleton in Hin. congruence.
Qed.

Lemma loads_streams_other (l : list (string * list string)) (k : pystream) :
  (∀ s, k ≠ StreamStr s) →
  foldl (λ m kv, <[StreamStr kv.1 := kv.2]> m)
        (∅ : gmap pystream (list string)) l !! k = None.
Proof.
  intros Hk. induction l as [|[s0 v0] l IH] using rev_ind; [done|].
  rewrite foldl_app. simpl. rewrite lookup_insert_ne; [done|]. apply not_eq_sym, Hk.
Qed.

(** An entry after [json.dump] and [json.loads], stream by stream. *)
Lemma round_trip_streams (e : entry) :
  (∀ k, (∀ s, k ≠ StreamStr s) →
        streams (json_loads_entry (json_dump_entry e)) !! k = None) ∧
  (∀ s ids, streams (json_loads_entry (json_dump_entry e)) !! StreamStr s = Some ids →
            ∃ k, json_key k = s ∧ streams e !! k = Some ids) ∧
  (∀ k, is_Some (streams e !! k) →
        is_Some (streams (json_loads_entry (json_dump_entry e))
                 !! StreamStr (json_key k))).
Proof.
  split_and!; simpl.
  - intros k Hk. by apply loads_streams_other.
  - intros s ids Hl. apply loads_streams_elem in Hl.
    apply list_elem_of_fmap in Hl as ([k ids'] & [= -> ->] & Hin).
    apply elem_of_map_to_list in Hin. by exists k.
  - intros k [ids Hk]. apply loads_streams_is_Some.
    rewrite <- list_fmap_compose. apply list_elem_of_fmap.
    exists (k, ids). split; [done|]. by apply elem_of_map_to_list.
Qed.

Lemma round_trip_stream (e : entry) (k : pystream) (ids : list string) :
  streams e !! k = Some ids →
  (∀ k', is_Some (streams e !! k') → json_key k' = json_key k → k' = k) →
  streams (json_loads_entry (json_dump_entry e)) !! StreamStr (json_key k) = Some ids.
Proof.
  intros Hk Hinj. destruct (round_trip_streams e) as (_ & Helem & Hsome).
  destruct (Hsome k) as [ids' Hids']; [by eexists|].
  rewrite Hids'. f_equal.
  destruct (Helem _ _ Hids') as (k' & Hkey & Hk').
  assert (k' = k) as -> by (apply Hinj; [by eexists|done]). congruence.
Qed.

(** X7. The round trip of an entry through [json.dump] and
    [json.loads].  The [path_type] and [md_ids] come back as they were;
    the streams come back under text keys only, the text [json.dump]
    gives to each key; the list found under a text is the list of one of
    the keys that have this text, never a merge of several; and a stream
    whose text no other stream of the entry shares comes back with its
    list. *)
Theorem json_round_trip (e : entry) :
  let e' := json_loads_entry (json_dump_entry e) in
  path_type e' = path_type e ∧
  md_ids e' = md_ids e ∧
  (∀ n, streams e' !! StreamInt n = None) ∧
  streams e' !! StreamNone = None ∧
  (∀ s ids, streams e' !! StreamStr s = Some ids →
            ∃ k, json_key k = s ∧ streams e !! k = Some ids) ∧
  (∀ k ids, streams e !! k = Some ids →
            (∀ k', is_Some (streams e !! k') → json_key k' = json_key k → k' = k) →
            streams e' !! StreamStr (json_key k) = Some ids).
Proof.
  intros e'. destruct (round_trip_streams e) as (Hother & Helem & Hsome).
  split_and!; try done.
  - intros n. by apply Hother.
  - by apply Hother.
  - intros k ids Hk Hinj. by apply round_trip_stream.
Qed.

Lemma foldl_update_streams (rs : list reference) (e : entry) (s : pystream)
    (x : string) :
  (is_Some (streams (foldl update_entry e rs) !! s)
   ↔ is_Some (streams e !! s) ∨
     ∃ r, r ∈ rs ∧ stream_truthy (ref_stream r) = true ∧ ref_stream r = s) ∧
  (x ∈ default [] (streams (foldl update_entry e rs) !! s)
   ↔ x ∈ default [] (streams e !! s) ∨
     ∃ r, r ∈ rs ∧ stream_truthy (ref_stream r) = true ∧ ref_stream r = s ∧
          ref_md_id r = x).
Proof.
  revert e. induction rs as [|r rs IH]; intros e; simpl.
  - split; (split; [by left|]); intros [?|(r & Hr & _)]; try done;
      by apply elem_of_nil in Hr.
  - destruct (IH (update_entry e r)) as [IHs IHx]. rewrite IHs, IHx. clear IH IHs IHx.
    destruct (stream_truthy (ref_stream r)) eqn:Ht.
    + destruct (update_entry_stream e r Ht) as (_ & Hothers & ids & Hids & _ & Hmem & _).
      destruct (decide (s = ref_stream r)) as [->|Hne].
      * rewrite Hids. simpl. split.
        -- split; [intros _; right; exists r; split; [by left|done]|].
           intros _. left. by eexists.
        -- rewrite Hmem. split.
           ++ intros [[->|?]|(r' & Hr' & ?)]; [right|by left|right].
              ** exists r. split; [by left|done].
              ** exists r'. split; [by right|done].
           ++ intros [?|(r' & Hr' & Ht' & Hs' & Hx)]; [left; by right|].
              apply elem_of_cons in Hr' as [->|Hr']; [left; by left|].
              right. by exists r'.
      * rewrite (Hothers s Hne). split; (split;
          [intros [?|(r' & Hr' & ?)]; [by left|right; exists r'; split; [by right|done]]|]).
        -- intros [?|(r' & Hr' & Ht' & Hs')]; [by left|].
           apply elem_of_cons in Hr' as [->|Hr']; [congruence|]. right. by exists r'.
        -- intros [?|(r' & Hr' & Ht' & Hs' & Hx)]; [by left|].
           apply elem_of_cons in Hr' as [->|Hr']; [congruence|]. right. by exists r'.
    + destruct (update_entry_no_stream e r Ht) as (-> & _).
      split; (split;
          [intros [?|(r' & Hr' & ?)]; [by left|right; exists r'; split; [by right|done]]|]).
      * intros [?|(r' & Hr' & Ht' & Hs')]; [by left|].
        apply elem_of_cons in Hr' as [->|Hr']; [congruence|]. right. by exists r'.
      * intros [?|(r' & Hr' & Ht' & Hs' & Hx)]; [by left|].
        apply elem_of_cons in Hr' as [->|Hr']; [congruence|]. right. by exists r'.
Qed.

Lemma foldl_update_nodup (rs : list reference) (e : entry) :
  entry_nodup e → entry_nodup (foldl update_entry e rs).
Proof.
  revert e. induction rs as [|r rs IH]; intros e He; [done|].
  simpl. by apply IH, update_entry_nodup.
Qed.

End streams_json.

(** ** Streams in the index *)

Section stream_flush.
Context `{!Externals}.

Lemma json_loads_from_json (l : jline) (k : string) (e : entry) :
  json_loads l !! k = Some e → ∃ je, e = json_loads_entry je.
Proof.
  unfold json_loads. induction l as [|[k0 je0] l IH] using rev_ind; [done|].
  rewrite foldl_app. simpl. destruct (decide (k0 = k)) as [->|Hne].
  - rewrite lookup_insert_eq. intros [= <-]. by eexists.
  - by rewrite lookup_insert_ne.
Qed.

Lemma read_entry_from_json (ws ref_file : string) (w : world) (k : string)
    (e : entry) :
  read_entry ws ref_file w k = Some e → ∃ je, e = json_loads_entry je.
Proof.
  unfold read_entry, read_md_references.
  destruct (ref_files w !! os_path_join ws ref_file) as [lines|]; [|done].
  simpl. induction lines as [|l lines IH] using rev_ind; [done|].
  rewrite foldl_app. simpl. intros Hl.
  apply lookup_union_Some_raw in Hl as [Hl|[_ Hl]]; [|by apply IH].
  by eapply json_loads_from_json.
Qed.

(** The entries of an index that was read have text keys only. *)
Lemma read_entry_text_keys (ws ref_file : string) (w : world) (k : string)
    (e : entry) (s : pystream) :
  read_entry ws ref_file w k = Some e →
  is_Some (streams e !! s) → ∃ t, s = StreamStr t.
Proof.
  intros [je ->]%read_entry_from_json [ids Hs].
  destruct s as [|n|t]; [| |by eexists]; exfalso; simpl in Hs.
  - by rewrite (loads_streams_other (j_streams je) StreamNone) in Hs.
  - by rewrite (loads_streams_other (j_streams je) (StreamInt n)) in Hs.
Qed.

Lemma foldl_update_streams_other (rs : list reference) (e : entry) (s : pystream) :
  (∀ r, r ∈ rs → stream_truthy (ref_stream r) = true → ref_stream r ≠ s) →
  streams (foldl update_entry e rs) !! s = streams e !! s.
Proof.
  revert e. induction rs as [|r rs IH]; intros e Hrs; [done|].
  simpl. rewrite IH by (intros r' Hr'; apply Hrs; by right).
  destruct (stream_truthy (ref_stream r)) eqn:Ht.
  - destruct (update_entry_stream e r Ht) as (_ & Hothers & _).
    apply Hothers, not_eq_sym, Hrs; [by left|done].
  - by destruct (update_entry_no_stream e r Ht) as (-> & _).
Qed.

Lemma foldl_update_streams_NoDup (rs : list reference) (e : entry) (s : pystream) :
  NoDup (default [] (streams e !! s)) ∨
  (∃ r, r ∈ rs ∧ stream_truthy (ref_stream r) = true ∧ ref_stream r = s) →
  NoDup (default [] (streams (foldl update_entry e rs) !! s)).
Proof.
  revert e. induction rs as [|r rs IH]; intros e Hcase; simpl.
  - destruct Hcase as [?|(r & Hr & _)]; [done|]. by apply elem_of_nil in Hr.
  - apply IH. destruct (stream_truthy (ref_stream r)) eqn:Ht.
    + destruct (update_entry_stream e r Ht) as (_ & Hothers & ids & Hids & _ & _ & Hnd).
      destruct (decide (s = ref_stream r)) as [->|Hne].
      * left. rewrite Hids. simpl. destruct Hcase as [?|(r' & Hr' & Ht' & Hs')]; [tauto|].
        destruct (streams e !! ref_stream r) as [old|] eqn:Hold.
        -- unfold update_entry in Hids. rewrite Ht in Hids. simpl in Hids.
           rewrite lookup_insert_eq, Hold in Hids. injection Hids as <-.
           apply uniques_list_NoDup.
        -- apply Hnd. constructor.
      * rewrite (Hothers s Hne). destruct Hcase as [?|(r' & Hr' & Ht' & Hs')]; [by left|].
        apply elem_of_cons in Hr' as [->|Hr']; [congruence|]. right. by exists r'.
    + destruct (update_entry_no_stream e r Ht) as (-> & _).
      destruct Hcase as [?|(r' & Hr' & Ht' & Hs')]; [by left|].
      apply elem_of_cons in Hr' as [->|Hr']; [congruence|]. right. by exists r'.
Qed.

(** X8. The IDs of a stream after a flush.  For an index with one line
    per path, a batch with a reference to the path [k] with the stream
    [s] (true in Python), and no other stream key of this path, in the
    index or in the batch, that JSON writes as the same text:
    reading the index afterwards gives an entry for [k] in which the
    text of [s] is a stream key; its list has no duplicates and holds
    exactly the IDs that the stream had in the index and the IDs of the
    references of the batch to [k] with the stream [s].  The stream is
    not found under [s] itself unless [s] is text: an [int] index reads
    back as its decimal text. *)
Theorem flush_stream_ids (self : MetsSectionCreator) (ref_file : string)
    (w : world) (k : string) (s : pystream) :
  let reference_file := os_path_join (workspace self) ref_file in
  let ws := workspace self in
  index_ok reference_file w →
  stream_truthy s = true →
  (∃ r, r ∈ references self ∧ ref_key r = k ∧ ref_stream r = s) →
  (∀ r, r ∈ references self → ref_key r = k →
        stream_truthy (ref_stream r) = true →
        json_key (ref_stream r) = json_key s → ref_stream r = s) →
  (∀ e, read_entry ws ref_file w k = Some e →
        is_Some (streams e !! StreamStr (json_key s)) → s = StreamStr (json_key s)) →
  ∃ w' e' ids,
    write_references self ref_file w = Ok w' ∧
    read_entry ws ref_file w' k = Some e' ∧
    streams e' !! StreamStr (json_key s) = Some ids ∧
    NoDup ids ∧
    (∀ x, x ∈ ids
          ↔ x ∈ default [] (read_entry ws ref_file w k ≫= λ e, streams e !! s) ∨
            ∃ r, r ∈ references self ∧ ref_key r = k ∧ ref_stream r = s ∧
                 ref_md_id r = x) ∧
    (s ≠ StreamStr (json_key s) → streams e' !! s = None).
Proof.
  intros rf ws (Htmp & Hfmt & Hnd) Hs (r & Hr & Hk & Hrs) Hbatch Hold.
  destruct (flush_entries self ref_file w Htmp Hfmt) as (w' & Hw & Hread).
  specialize (Hread k).
  assert (∀ r', r' ∈ refs_for k (references self)
                ↔ r' ∈ references self ∧ ref_key r' = k) as Hmem.
  { intros r'. unfold refs_for. rewrite list_elem_of_filter. tauto. }
  assert (r ∈ refs_for k (references self)) as Hin by by apply Hmem.
  destruct (refs_for k (references self)) as [|r0 rs] eqn:Hrefs;
    [by apply elem_of_nil in Hin|].
  fold rf in Hread. unfold rf in Hread. rewrite initial_entry_read in Hread by done.
  fold ws in Hread.
  set (e0 := default (_setup_new_path (ref_path_type r0)) (read_entry ws ref_file w k))
    in Hread.
  set (E := foldl update_entry e0 (r0 :: rs)) in Hread.
  assert (streams e0 !! s = read_entry ws ref_file w k ≫= λ e, streams e !! s) as He0.
  { unfold e0. by destruct (read_entry ws ref_file w k). }
  assert (∀ k', is_Some (streams e0 !! k') → ∃ e t, read_entry ws ref_file w k = Some e ∧
            k' = StreamStr t ∧ is_Some (streams e !! StreamStr t)) as Htext.
  { intros k' Hk'. unfold e0 in Hk'.
    destruct (read_entry ws ref_file w k) as [e|] eqn:He; simpl in Hk'.
    - destruct (read_entry_text_keys ws ref_file w k e k' He Hk') as [t ->]. by exists e, t.
    - rewrite lookup_empty in Hk'. by destruct Hk'. }
  destruct (foldl_update_streams (r0 :: rs) e0 s "") as [Hsome _].
  fold E in Hsome. destruct (proj2 Hsome) as [ids Hids].
  { right. exists r. subst s. done. }
  assert (streams (json_loads_entry (json_dump_entry E)) !! StreamStr (json_key s)
          = Some ids) as Hback.
  { apply round_trip_stream; [done|]. intros k' Hk' Hkey.
    destruct (foldl_update_streams (r0 :: rs) e0 k' "") as [Hsome' _].
    apply Hsome' in Hk' as [Hk'|(r' & Hr' & Ht' & <-)].
    - destruct (Htext k' Hk') as (e & t & He & -> & Ht). simpl in Hkey. subst t.
      symmetry. by eapply Hold.
    - apply Hmem in Hr' as [Hr' Hk'']. by apply Hbatch. }
  exists w', (json_loads_entry (json_dump_entry E)), ids.
  split_and!; try done.
  - change ids with (default [] (Some ids)). rewrite <- Hids.
    apply foldl_update_streams_NoDup. right. exists r. subst s. done.
  - intros x. destruct (foldl_update_streams (r0 :: rs) e0 s x) as [_ Hx].
    fold E in Hx. rewrite Hids in Hx. simpl in Hx. rewrite Hx, He0.
    split; (intros [?|(r' & Hr' & Hrest)]; [by left|right; exists r']).
    + apply Hmem in Hr'. tauto.
    + split; [apply Hmem; tauto|]. destruct Hrest as (? & <- & ?). tauto.
  - intros Hne. apply round_trip_streams. intros t ->. by apply Hne.
Qed.

(** X9. An [int] stream does not merge with what the index has for it.
    The index has, for the path [k], the stream text of the integer [n]
    with the list [old]; every reference of the batch to [k] has the
    stream [n] (not 0).  After the flush the index has one list for this
    stream: the list [old], without the new IDs, or the IDs of the batch,
    without the old ones.  (The new entry has the key [n] beside the text
    key, JSON writes both as the same text, and the reader keeps one.) *)
Theorem int_stream_replaces (self : MetsSectionCreator) (ref_file : string)
    (w : world) (k : string) (n : Z) (e : entry) (old : list string) :
  let reference_file := os_path_join (workspace self) ref_file in
  let ws := workspace self in
  index_ok reference_file w →
  n ≠ 0%Z →
  read_entry ws ref_file w k = Some e →
  streams e !! StreamStr (pretty n) = Some old →
  (∃ r, r ∈ references self ∧ ref_key r = k) →
  (∀ r, r ∈ references self → ref_key r = k → ref_stream r = StreamInt n) →
  ∃ w' e' ids,
    write_references self ref_file w = Ok w' ∧
    read_entry ws ref_file w' k = Some e' ∧
    streams e' !! StreamStr (pretty n) = Some ids ∧
    (ids = old ∨
     ∀ x, x ∈ ids ↔ ∃ r, r ∈ references self ∧ ref_key r = k ∧ ref_md_id r = x).
Proof.
  intros rf ws (Htmp & Hfmt & Hnd) Hn He Hold (r & Hr & Hk) Hall.
  destruct (flush_entries self ref_file w Htmp Hfmt) as (w' & Hw & Hread).
  specialize (Hread k).
  assert (∀ r', r' ∈ refs_for k (references self)
                ↔ r' ∈ references self ∧ ref_key r' = k) as Hmem.
  { intros r'. unfold refs_for. rewrite list_elem_of_filter. tauto. }
  assert (r ∈ refs_for k (references self)) as Hin by by apply Hmem.
  destruct (refs_for k (references self)) as [|r0 rs] eqn:Hrefs;
    [by apply elem_of_nil in Hin|].
  fold rf in Hread. unfold rf in Hread. rewrite initial_entry_read in Hread by done.
  fold ws in Hread. rewrite He in Hread. simpl default in Hread.
  set (E := foldl update_entry e (r0 :: rs)) in Hread.
  assert (∀ r', r' ∈ r0 :: rs → ref_stream r' = StreamInt n) as Hint.
  { intros r' Hr'. apply Hmem in Hr' as [? ?]. by apply Hall. }
  assert (stream_truthy (StreamInt n) = true) as Htruthy.
  { simpl. by destruct n. }
  assert (streams E !! StreamStr (pretty n) = Some old) as Htextkey.
  { unfold E. rewrite foldl_update_streams_other; [done|].
    intros r' Hr' _. by rewrite (Hint r' Hr'). }
  destruct (round_trip_streams E) as (_ & Helem & Hsome).
  destruct (Hsome (StreamStr (pretty n))) as [ids Hids]; [by eexists|].
  simpl json_key in Hids.
  exists w', (json_loads_entry (json_dump_entry E)), ids. split_and!; try done.
  destruct (Helem _ _ Hids) as (k' & Hkey & Hk').
  destruct (foldl_update_streams (r0 :: rs) e k' "") as [Hdom _].
  fold E in Hdom. destruct (proj1 Hdom) as [Hfile|(r' & Hr' & _ & <-)]; [by eexists| |].
  - destruct (read_entry_text_keys ws ref_file w k e k' He Hfile) as [t ->].
    simpl in Hkey. subst t. left. congruence.
  - right. intros x.
    destruct (foldl_update_streams (r0 :: rs) e (ref_stream r') x) as [_ Hx].
    fold E in Hx. rewrite Hk' in Hx. simpl in Hx. rewrite Hx.
    rewrite (Hint r' Hr').
    assert (streams e !! StreamInt n = None) as ->.
    { destruct (streams e !! StreamInt n) eqn:Hsn; [|done].
      destruct (read_entry_text_keys ws ref_file w k e (StreamInt n) He) as [t Ht];
        [by eexists|done]. }
    simpl. split.
    + intros [Hnil|(r'' & Hr'' & _ & _ & Hid)]; [by apply elem_of_nil in Hnil|].
      exists r''. apply Hmem in Hr''. tauto.
    + intros (r'' & Hr'' & Hk'' & Hid). right. exists r''.
      assert (r'' ∈ r0 :: rs) as Hin'' by (apply Hmem; tauto).
      rewrite (Hint r'' Hin''). done.
Qed.

End stream_flush.

(** ** [write] *)

Section write.
Context `{!Externals}.

Lemma write_md_spec (self : MetsSectionCreator) (metadata : Element)
    (mdtype mdtypeversion : string) (othermdtype section : option string)
    (to_stdout : bool) (w : world) :
  ∃ w', write_md self metadata mdtype mdtypeversion othermdtype section to_stdout w
        = (("_" +:+ generate_digest metadata,
            amd_filename (workspace self) metadata mdtype othermdtype), w') ∧
        ref_files w' = ref_files w ∧
        (∀ name data, md_files w !! name = Some data →
                      md_files w' !! name = Some data) ∧
        is_Some (md_files w' !! amd_filename (workspace self) metadata mdtype
                                             othermdtype).
Proof.
  unfold write_md, amd_filename. cbv zeta.
  set (filename := os_path_join _ _).
  destruct (md_files w !! filename) as [data|] eqn:Hfile.
  - exists w. split_and!; try done; by eexists.
  - eexists. split; [done|]. destruct to_stdout; simpl.
    + split_and!; [done| |by rewrite lookup_insert_eq].
      intros name data Hname. rewrite lookup_insert_ne; [done|]. congruence.
    + split_and!; [done| |by rewrite lookup_insert_eq].
      intros name data Hname. rewrite lookup_insert_ne; [done|]. congruence.
Qed.

Lemma write_dict_spec (self : MetsSectionCreator) (d : metadata_dict)
    (premis_amd_id : string) (w : world) :
  ref_files (write_dict self d premis_amd_id w) = ref_files w ∧
  ∀ name data, md_files w !! name = Some data →
               md_files (write_dict self d premis_amd_id w) !! name = Some data.
Proof.
  unfold write_dict. cbv zeta. set (filename := os_path_join _ _).
  destruct (md_files w !! filename) as [data|] eqn:Hfile; [done|].
  split; [done|]. simpl. intros name data Hname.
  rewrite lookup_insert_ne; [done|]. congruence.
Qed.

Lemma write_element_spec (mdtype mdtypeversion : string)
    (othermdtype section : option string) (to_stdout : bool)
    (self : MetsSectionCreator) (d : option metadata_dict) (w : world)
    (el : md_element) :
  ∃ d' w',
    write_element mdtype mdtypeversion othermdtype section to_stdout (self, d, w) el
    = (add_reference self (element_id el) (me_filename el) (me_stream el)
                     (me_directory el), d', w') ∧
    ref_files w' = ref_files w ∧
    (∀ name data, md_files w !! name = Some data →
                  md_files w' !! name = Some data) ∧
    is_Some (md_files w' !! amd_filename (workspace self) (me_metadata el) mdtype
                                         othermdtype).
Proof.
  unfold write_element.
  destruct (write_md_spec self (me_metadata el) mdtype mdtypeversion othermdtype
              section to_stdout w) as (w1 & -> & Hrefs & Hmono & Hfile).
  set (d' := if opt_dict_truthy (me_given_metadata_dict el)
             then me_given_metadata_dict el else d).
  eexists d', _. split; [done|].
  destruct d' as [dict|]; [|done]. destruct (me_stream el); try done.
  destruct (dict_truthy dict); [|done].
  destruct (write_dict_spec self dict ("_" +:+ generate_digest (me_metadata el)) w1)
    as [Hrefs' Hmono'].
  split_and!; [congruence|by auto|].
  destruct Hfile as [data Hdata]. exists data. by apply Hmono'.
Qed.

(** The loop of [write] over [md_elements]. *)
Lemma write_loop (mdtype mdtypeversion : string)
    (othermdtype section : option string) (to_stdout : bool)
    (els : list md_element) (self : MetsSectionCreator)
    (d : option metadata_dict) (w : world) :
  ∃ d' w',
    foldl (write_element mdtype mdtypeversion othermdtype section to_stdout)
          (self, d, w) els
    = (foldl (λ self el, add_reference self (element_id el) (me_filename el)
                                       (me_stream el) (me_directory el)) self els,
       d', w') ∧
    ref_files w' = ref_files w ∧
    (∀ name data, md_files w !! name = Some data →
                  md_files w' !! name = Some data) ∧
    (∀ el, el ∈ els →
           is_Some (md_files w' !! amd_filename (workspace self) (me_metadata el)
                                                mdtype othermdtype)).
Proof.
  revert self d w. induction els as [|el els IH]; intros self d w.
  - exists d, w. split_and!; try done. by intros el ?%elem_of_nil.
  - cbn [foldl].
    destruct (write_element_spec mdtype mdtypeversion othermdtype section to_stdout
                self d w el) as (d1 & w1 & -> & Hrefs1 & Hmono1 & Hfile1).
    destruct (IH (add_reference self (element_id el) (me_filename el) (me_stream el)
                                (me_directory el)) d1 w1)
      as (d' & w' & -> & Hrefs & Hmono & Hfiles).
    exists d', w'. split_and!; [done|congruence|by auto|].
    intros el' [->|Hin]%elem_of_cons.
    + destruct Hfile1 as [data Hdata]. exists data. by apply Hmono.
    + by apply Hfiles.
Qed.

Lemma add_element_references (els : list md_element) (self : MetsSectionCreator) :
  let self' := foldl (λ self el, add_reference self (element_id el) (me_filename el)
                                               (me_stream el) (me_directory el))
                     self els in
  workspace self' = workspace self ∧
  (∀ r, r ∈ references self → r ∈ references self') ∧
  ∀ el, el ∈ els →
        ∃ r, r ∈ references self' ∧ ref_key r = element_key el ∧
             ref_stream r = me_stream el ∧ ref_md_id r = element_id el ∧
             ref_path_type r = if path_truthy (me_directory el)
                               then "directory" else "file".
Proof.
  revert self. induction els as [|el els IH]; intros self; simpl.
  - split_and!; try done. by intros el ?%elem_of_nil.
  - destruct (IH (add_reference self (element_id el) (me_filename el) (me_stream el)
                                (me_directory el))) as (Hws & Hold & Hnew).
    split_and!; [done| |].
    + intros r Hr. apply Hold. simpl. apply elem_of_app. by left.
    + intros el' [->|Hin]%elem_of_cons; [|by apply Hnew].
      eexists. split; [apply Hold; simpl; apply elem_of_app; right; by left|].
      unfold ref_key, element_key. by destruct (path_truthy (me_directory el)).
Qed.


(** X11. What [add_md] collected is referenced after [write].  For an
    index in the index format without a left-over temporary file and an
    element of the batch without a stream: after [write] the index has
    an entry under the key of the element (its directory when one is
    given, its file name otherwise), and the ID of the element, ["_"]
    and the digest of its metadata, is in the [md_ids] of the entry. *)
Theorem write_references_elements (self : MetsSectionCreator)
    (mdtype mdtypeversion : string) (othermdtype section : option string)
    (to_stdout : bool) (file_metadata_dict : option metadata_dict)
    (ref_file : string) (w : world) (el : md_element) :
  let reference_file := os_path_join (workspace self) ref_file in
  ref_files w !! (reference_file +:+ ".tmp") = None →
  index_format (default [] (ref_files w !! reference_file)) →
  el ∈ md_elements self →
  stream_truthy (me_stream el) = false →
  ∃ w' e, write self mdtype mdtypeversion othermdtype section to_stdout
                file_metadata_dict ref_file w
          = Ok (init (workspace self), w') ∧
          read_entry (workspace self) ref_file w' (element_key el) = Some e ∧
          element_id el ∈ md_ids e.
Proof.
  intros rf Htmp Hfmt Hel Hstream. unfold write.
  destruct (write_loop mdtype mdtypeversion othermdtype section to_stdout
              (md_elements self) self file_metadata_dict w)
    as (d' & w1 & -> & Hrefs & _ & _).
  destruct (add_element_references (md_elements self) self) as (Hws & _ & Hnew).
  destruct (Hnew el Hel) as (r & Hr & Hkey & Hs & Hid & _).
  set (self' := foldl _ self (md_elements self)) in *.
  destruct (flush_entries self' ref_file w1) as (w' & Hw & Hread).
  { rewrite Hws, Hrefs. exact Htmp. }
  { rewrite Hws, Hrefs. exact Hfmt. }
  rewrite Hw. unfold mbind, result_bind, init. rewrite Hws in *.
  specialize (Hread (element_key el)).
  assert (r ∈ refs_for (element_key el) (references self')) as Hin
    by by apply list_elem_of_filter.
  destruct (refs_for (element_key el) (references self')) as [|r0 rs] eqn:Hrs;
    [by apply elem_of_nil in Hin|].
  eexists w', _. split; [done|]. split; [exact Hread|].
  change (md_ids (json_loads_entry (json_dump_entry ?e))) with (md_ids e).
  apply foldl_update_md_ids. right. exists r. split_and!; [done|congruence|done].
Qed.

Lemma write_md_other (self : MetsSectionCreator) (metadata : Element)
    (mdtype mdtypeversion : string) (othermdtype section : option string)
    (to_stdout : bool) (w : world) (name : string) :
  name ≠ amd_filename (workspace self) metadata mdtype othermdtype →
  md_files (write_md self metadata mdtype mdtypeversion othermdtype section
                     to_stdout w).2 !! name
  = md_files w !! name.
Proof.
  unfold write_md, amd_filename. cbv zeta.
  set (filename := os_path_join _ _). intros Hname.
  destruct (md_files w !! filename) as [data|] eqn:Hfile; [done|].
  destruct to_stdout; simpl; by rewrite lookup_insert_ne.
Qed.

Lemma write_dict_other (self : MetsSectionCreator) (d : metadata_dict)
    (metadata : Element) (w : world) (name : string) :
  name ≠ scraper_filename (workspace self) metadata →
  md_files (write_dict self d ("_" +:+ generate_digest metadata) w) !! name
  = md_files w !! name.
Proof.
  unfold write_dict, scraper_filename. cbv zeta.
  change (drop_first ("_" +:+ ?x)) with x.
  set (filename := os_path_join _ _). intros Hname.
  destruct (md_files w !! filename) as [data|] eqn:Hfile; [done|].
  simpl. by rewrite lookup_insert_ne.
Qed.

Lemma write_dict_new (self : MetsSectionCreator) (d : metadata_dict)
    (metadata : Element) (w : world) :
  md_files w !! scraper_filename (workspace self) metadata = None →
  md_files (write_dict self d ("_" +:+ generate_digest metadata) w)
    !! scraper_filename (workspace self) metadata
  = Some (json_dump_dict d).
Proof.
  unfold write_dict, scraper_filename. cbv zeta.
  change (drop_first ("_" +:+ ?x)) with x.
  set (filename := os_path_join _ _). intros ->.
  simpl. by rewrite lookup_insert_eq.
Qed.

(** The loop of [write] and the local [file_metadata_dict]: after the
    elements [els] it is the last dict given with an element that is
    true in Python, the one it was before when there is none; a file
    that is neither the metadata file nor the scraper file of an element
    stays as it is. *)
Lemma write_loop_dict (mdtype mdtypeversion : string)
    (othermdtype section : option string) (to_stdout : bool)
    (els : list md_element) (self : MetsSectionCreator)
    (d : option metadata_dict) (w : world) (name : string) :
  (∀ el, el ∈ els →
         name ≠ amd_filename (workspace self) (me_metadata el) mdtype othermdtype ∧
         name ≠ scraper_filename (workspace self) (me_metadata el)) →
  ∃ self' w',
    foldl (write_element mdtype mdtypeversion othermdtype section to_stdout)
          (self, d, w) els
    = (self',
       foldl (λ d el, if opt_dict_truthy (me_given_metadata_dict el)
                      then me_given_metadata_dict el else d) d els,
       w') ∧
    workspace self' = workspace self ∧
    md_files w' !! name = md_files w !! name.
Proof.
  revert self d w. induction els as [|el els IH]; intros self d w Hnames.
  - by exists self, w.
  - cbn [foldl].
    set (d1 := if opt_dict_truthy (me_given_metadata_dict el)
               then me_given_metadata_dict el else d).
    destruct (Hnames el) as [Hamd Hscraper]; [by left|].
    assert (∃ w1, write_element mdtype mdtypeversion othermdtype section to_stdout
                    (self, d, w) el
                  = (add_reference self (element_id el) (me_filename el)
                                   (me_stream el) (me_directory el), d1, w1) ∧
                  md_files w1 !! name = md_files w !! name) as (w1 & -> & Hw1).
    { unfold write_element.
      pose proof (write_md_other self (me_metadata el) mdtype mdtypeversion
                    othermdtype section to_stdout w name Hamd) as Hmd.
      destruct (write_md_spec self (me_metadata el) mdtype mdtypeversion othermdtype
                  section to_stdout w) as (w0 & Heq & _).
      rewrite Heq in Hmd |- *. simpl in Hmd. fold d1.
      eexists. split; [done|].
      destruct d1 as [dict|]; [|done]. destruct (me_stream el); try done.
      destruct (dict_truthy dict); [|done].
      by rewrite write_dict_other. }
    destruct (IH (add_reference self (element_id el) (me_filename el) (me_stream el)
                                (me_directory el)) d1 w1)
      as (self' & w' & -> & Hws & Hw').
    { intros el' Hel'. apply Hnames. by right. }
    exists self', w'. split_and!; [done|done|congruence].
Qed.

(** X12. The dict of one element is used for the next ones.  In [write]
    the parameter [file_metadata_dict] is rebound when an element gives
    a dict, and stays so: an element without a stream that gives no dict
    gets the scraper file of the last dict given before it in the batch.
    Here [e1] gives the dict [d], no element between [e1] and [e2] gives
    one, [e2] gives none, and no earlier write of the batch has the name
    of the scraper file of [e2], which does not exist: after [write] it
    holds the dict [d]. *)
Theorem given_dict_carries_over (self : MetsSectionCreator)
    (mdtype mdtypeversion : string) (othermdtype section : option string)
    (to_stdout : bool) (file_metadata_dict : option metadata_dict)
    (ref_file : string) (w : world)
    (pre mid post : list md_element) (e1 e2 : md_element) (d : metadata_dict) :
  let target := scraper_filename (workspace self) (me_metadata e2) in
  md_elements self = pre ++ e1 :: mid ++ e2 :: post →
  me_given_metadata_dict e1 = Some d →
  dict_truthy d = true →
  (∀ el, el ∈ mid → opt_dict_truthy (me_given_metadata_dict el) = false) →
  opt_dict_truthy (me_given_metadata_dict e2) = false →
  me_stream e2 = StreamNone →
  md_files w !! target = None →
  (∀ el, el ∈ pre ++ e1 :: mid →
         target ≠ amd_filename (workspace self) (me_metadata el) mdtype othermdtype ∧
         target ≠ scraper_filename (workspace self) (me_metadata el)) →
  target ≠ amd_filename (workspace self) (me_metadata e2) mdtype othermdtype →
  ∃ w', write self mdtype mdtypeversion othermdtype section to_stdout
              file_metadata_dict ref_file w
        = Ok (init (workspace self), w') ∧
        md_files w' !! target = Some (json_dump_dict d).
Proof.
  intros target Hels Hgiven Hd Hmid He2 Hstream Hnew Hnames Hamd.
  unfold write. rewrite Hels.
  change (pre ++ e1 :: mid ++ e2 :: post) with (pre ++ (e1 :: mid) ++ e2 :: post).
  rewrite app_assoc, foldl_app. cbn [foldl].
  destruct (write_loop_dict mdtype mdtypeversion othermdtype section to_stdout
              (pre ++ e1 :: mid) self file_metadata_dict w target Hnames)
    as (s1 & w1 & -> & Hws1 & Hw1).
  assert (foldl (λ d el, if opt_dict_truthy (me_given_metadata_dict el)
                         then me_given_metadata_dict el else d)
                file_metadata_dict (pre ++ e1 :: mid) = Some d) as ->.
  { rewrite foldl_app. cbn [foldl]. rewrite Hgiven. simpl. rewrite Hd.
    clear -Hmid. induction mid as [|el mid IH]; [done|].
    simpl. rewrite (Hmid el) by by left. apply IH. intros el' Hel'. apply Hmid. by right. }
  assert (∃ s2 d2 w2,
            write_element mdtype mdtypeversion othermdtype section to_stdout
                          (s1, Some d, w1) e2 = (s2, d2, w2) ∧
            workspace s2 = workspace self ∧
            md_files w2 !! target = Some (json_dump_dict d)) as (s2 & d2 & w2 & -> & Hws2 & Hw2).
  { unfold write_element.
    pose proof (write_md_other s1 (me_metadata e2) mdtype mdtypeversion
                  othermdtype section to_stdout w1 target) as Hmd.
    destruct (write_md_spec s1 (me_metadata e2) mdtype mdtypeversion othermdtype
                section to_stdout w1) as (w0 & Heq & _).
    rewrite Heq in Hmd |- *. simpl in Hmd. rewrite He2, Hstream, Hd.
    eexists _, _, _. split; [done|]. split; [done|].
    unfold target. rewrite <- Hws1. apply write_dict_new.
    rewrite Hws1 in Hmd |- *. fold target. rewrite (Hmd Hamd). by rewrite Hw1. }
  destruct (write_loop mdtype mdtypeversion othermdtype section to_stdout
              post s2 d2 w2) as (d' & w3 & -> & _ & Hmono & _).
  destruct (add_element_references post s2) as (Hws3 & _ & _).
  set (s3 := foldl _ s2 post) in *.
  destruct (write_references_changes s3 ref_file w3)
    as (w' & -> & (Hmd & _) & _).
  unfold mbind, result_bind. rewrite Hws3, Hws2. exists w'. split; [done|].
  rewrite Hmd. by apply Hmono.
Qed.

End write.

(** ** [get_objectlist] *)

Section objectlist.
Context `{!Externals}.

Lemma string_le_lt (a b : string) :
  string_le a b ↔ a = b ∨ OrderedTypeEx.String_as_OT.lt a b.
Proof.
  unfold string_le, String.leb. split.
  - destruct (String.compare a b) eqn:Hc; [| |done]; intros _.
    + left. by apply String.compare_eq_iff.
    + right. by apply OrderedTypeEx.String_as_OT.cmp_lt.
  - intros [->|Hlt].
    + pose proof (proj2 (OrderedTypeEx.String_as_OT.cmp_eq b b) eq_refl) as Heq.
      unfold OrderedTypeEx.String_as_OT.cmp in Heq. by rewrite Heq.
    + apply OrderedTypeEx.String_as_OT.cmp_lt in Hlt.
      unfold OrderedTypeEx.String_as_OT.cmp in Hlt. by rewrite Hlt.
Qed.

Local Instance string_le_total : Total string_le.
Proof. intros a b. apply String.leb_total. Qed.

Local Instance string_le_trans : Transitive string_le.
Proof.
  intros a b c [->|Hab]%string_le_lt [->|Hbc]%string_le_lt; apply string_le_lt;
    [by left|by right|by right|].
  right. by eapply OrderedTypeEx.String_as_OT.lt_trans.
Qed.

Local Instance pystream_le_total : Total pystream_le.
Proof.
  intros [|m|s] [|n|t]; simpl; try tauto; [lia|apply String.leb_total].
Qed.

Local Instance pystream_le_trans : Transitive pystream_le.
Proof.
  intros [|m|s] [|n|t] [|o|u]; simpl; try tauto; [lia|apply string_le_trans].
Qed.

Lemma file_set_elem (l : list (string * entry)) (acc : gset string) (k : string) :
  k ∈ foldl (λ (objectset : gset string) kv,
               if decide (path_type kv.2 = "file")
               then {[ kv.1 ]} ∪ objectset else objectset) acc l
  ↔ k ∈ acc ∨ ∃ e, (k, e) ∈ l ∧ path_type e = "file".
Proof.
  revert acc. induction l as [|[k0 e0] l IH]; intros acc; simpl.
  - split; [by left|]. intros [?|(e & He & _)]; [done|]. by apply elem_of_nil in He.
  - rewrite IH. split.
    + intros [Hk|(e & He & Hf)].
      * case_decide as Hfile; [|by left].
        apply elem_of_union in Hk as [->%elem_of_singleton|?]; [|by left].
        right. exists e0. split; [by left|done].
      * right. exists e. split; [by right|done].
    + intros [Hk|(e & He & Hf)].
      * left. case_decide; [|done]. apply elem_of_union. by right.
      * apply elem_of_cons in He as [[= -> ->]|He].
        -- left. rewrite decide_True by done. apply elem_of_union. left.
           by apply elem_of_singleton.
        -- right. by exists e.
Qed.


(** X13. [get_objectlist] without a path lists the files of the index:
    the result is sorted, has no path twice, and holds exactly the keys
    whose entry has the type ["file"], so the directories are left out.
    Without an index ([None]) and for an empty one it is the empty
    list. *)
Theorem get_objectlist_files (refs_dict : option (gmap string entry)) :
  ∃ l, get_objectlist refs_dict None = Returns (Files l) ∧
       StronglySorted string_le l ∧
       NoDup l ∧
       (∀ k, k ∈ l ↔ ∃ refs e, refs_dict = Some refs ∧ refs !! k = Some e ∧
                               path_type e = "file") ∧
       (refs_dict = None ∨ refs_dict = Some ∅ → l = []).
Proof.
  destruct refs_dict as [refs|]; simpl.
  - eexists. split; [done|]. split_and!.
    + apply StronglySorted_merge_sort; apply _.
    + rewrite merge_sort_Permutation. apply NoDup_elements.
    + intros k. rewrite merge_sort_Permutation, elem_of_elements, file_set_elem.
      rewrite elem_of_empty. split.
      * intros [[]|(e & He & Hf)]. exists refs, e.
        by apply elem_of_map_to_list in He.
      * intros (refs' & e & [= <-] & He & Hf). right. exists e.
        by apply elem_of_map_to_list in He.
    + intros [[=]|[= ->]]. by rewrite map_to_list_empty.
  - exists []. split_and!; try done; [constructor|constructor|].
    intros k. split; [by intros ?%elem_of_nil|]. by intros (? & ? & [=] & _).
Qed.


End objectlist.

(** ** [read_all_amd_references] *)

Section read_all.
Context `{!Externals}.

Lemma foldl_extend_lookup {K} `{Countable K} {V} (f : V → V → V)
    (l : list (K * V)) (acc : gmap K V) (k : K) :
  NoDup l.*1 →
  foldl (λ acc kv,
           match acc !! kv.1 with
           | Some a => <[kv.1 := f a kv.2]> acc
           | None => <[kv.1 := kv.2]> acc
           end) acc l !! k
  = match acc !! k, (list_to_map l : gmap K V) !! k with
    | Some a, Some b => Some (f a b)
    | Some a, None => Some a
    | None, b => b
    end.
Proof.
  revert acc. induction l as [|[k0 v0] l IH]; intros acc Hnd.
  - simpl. rewrite lookup_empty. by destruct (acc !! k).
  - apply NoDup_cons in Hnd as [Hk0 Hnd]. cbn [foldl]. rewrite IH by done. simpl.
    destruct (decide (k = k0)) as [->|Hne].
    + rewrite lookup_insert_eq, (not_elem_of_list_to_map_1 _ _ Hk0).
      destruct (acc !! k0); by rewrite lookup_insert_eq.
    + rewrite (lookup_insert_ne _ k0 k) by done.
      destruct (acc !! k0); by rewrite lookup_insert_ne.
Qed.

Lemma extend_streams_lookup (old new : gmap pystream (list string)) (s : pystream) :
  extend_streams old new !! s
  = match old !! s, new !! s with
    | Some a, Some b => Some (a ++ b)
    | Some a, None => Some a
    | None, b => b
    end.
Proof.
  unfold extend_streams.
  rewrite (foldl_extend_lookup (λ a b, a ++ b)) by apply NoDup_fst_map_to_list.
  by rewrite list_to_map_to_list.
Qed.

(** The entry of a path in two files. *)
Local Abbreviation merge_entry old new :=
  {| path_type := path_type old;
     streams := extend_streams (streams old) (streams new);
     md_ids := md_ids old ++ md_ids new |}.

Lemma extend_references_lookup (references refs : gmap string entry) (k : string) :
  extend_references references refs !! k
  = match references !! k, refs !! k with
    | Some a, Some b => Some (merge_entry a b)
    | Some a, None => Some a
    | None, b => b
    end.
Proof.
  unfold extend_references.
  rewrite (foldl_extend_lookup (λ a b, merge_entry a b))
    by apply NoDup_fst_map_to_list.
  by rewrite list_to_map_to_list.
Qed.

Lemma read_all_step (ws : string) (w : world) (fs : list string)
    (acc : gmap string entry) (k : string) :
  foldl (λ references ref_file,
           match read_md_references ws ref_file w with
           | Some refs =>
               if decide (refs = ∅) then references
               else extend_references references refs
           | None => references
           end) acc fs !! k
  = match from_option (λ a, [a]) [] (acc !! k)
          ++ omap (λ ref_file, read_entry ws ref_file w k) fs with
    | [] => None
    | e :: es => Some (foldl (λ a b, merge_entry a b) e es)
    end.
Proof.
  revert acc. induction fs as [|f fs IH]; intros acc.
  - simpl. rewrite app_nil_r. by destruct (acc !! k).
  - cbn [foldl]. rewrite IH. clear IH. unfold read_entry at 2. simpl.
    destruct (read_md_references ws f w) as [refs|]; simpl; [|done].
    assert ((if decide (refs = ∅) then acc else extend_references acc refs) !! k
            = match acc !! k, refs !! k with
              | Some a, Some b => Some (merge_entry a b)
              | Some a, None => Some a
              | None, b => b
              end) as ->.
    { case_decide as Hempty; [|apply extend_references_lookup].
      subst refs. rewrite lookup_empty. by destruct (acc !! k). }
    destruct (acc !! k) as [a|], (refs !! k) as [b|]; done.
Qed.

Lemma foldl_merge_entry (e : entry) (es : list entry) :
  path_type (foldl (λ a b, merge_entry a b) e es) = path_type e ∧
  md_ids (foldl (λ a b, merge_entry a b) e es) = mjoin (md_ids <$> e :: es) ∧
  ∀ s, streams (foldl (λ a b, merge_entry a b) e es) !! s
       = match omap (λ e', streams e' !! s) (e :: es) with
         | [] => None
         | ids :: l => Some (mjoin (ids :: l))
         end.
Proof.
  revert e. induction es as [|e' es IH]; intros e.
  - simpl. split_and!; [done|by rewrite app_nil_r|].
    intros s. destruct (streams e !! s); simpl; [by rewrite app_nil_r|done].
  - cbn [foldl]. destruct (IH (merge_entry e e')) as (-> & -> & Hs).
    split_and!; [done|simpl; by rewrite app_assoc|].
    intros s. rewrite Hs. simpl. rewrite extend_streams_lookup.
    destruct (streams e !! s) as [a|], (streams e' !! s) as [b|]; simpl; try done.
    by rewrite app_assoc.
Qed.

(** The entry of a path in what [read_all_amd_references] collects. *)
Lemma read_all_amd_references_lookup_aux (ws : string) (w : world) (k : string) :
  match omap (λ ref_file, read_entry ws ref_file w k) amd_reference_files with
  | [] => read_all_amd_references ws w !! k = None
  | e :: es =>
      ∃ r, read_all_amd_references ws w !! k = Some r ∧
           path_type r = path_type e ∧
           md_ids r = mjoin (md_ids <$> e :: es) ∧
           ∀ s, streams r !! s
                = match omap (λ e', streams e' !! s) (e :: es) with
                  | [] => None
                  | ids :: l => Some (mjoin (ids :: l))
                  end
  end.
Proof.
  unfold read_all_amd_references. rewrite read_all_step, lookup_empty.
  cbn [from_option app].
  destruct (omap _ amd_reference_files) as [|e es]; [done|].
  eexists. split; [done|]. apply foldl_merge_entry.
Qed.

(** X15. What [read_all_amd_references] collects for a path.  With the
    entries of the path in the six reference files, in the order of the
    files and leaving out the files that do not exist or do not have the
    path: without such an entry the path is not in the result; otherwise
    its [path_type] is the one of the first entry, its [md_ids] are the
    [md_ids] of the entries one after the other (an ID that two files
    have is there twice), and each stream has the lists of the entries
    that have this stream, one after the other. *)
Theorem read_all_amd_references_lookup (ws : string) (w : world) (k : string) :
  match omap (λ ref_file, read_entry ws ref_file w k) amd_reference_files with
  | [] => read_all_amd_references ws w !! k = None
  | e :: es =>
      ∃ r, read_all_amd_references ws w !! k = Some r ∧
           path_type r = path_type e ∧
           md_ids r = mjoin (md_ids <$> e :: es) ∧
           ∀ s, streams r !! s
                = match omap (λ e', streams e' !! s) (e :: es) with
                  | [] => None
                  | ids :: l => Some (mjoin (ids :: l))
                  end
  end.
Proof. apply read_all_amd_references_lookup_aux. Qed.

Lemma get_md_references_path (refs : gmap string entry) (p : string) :
  get_md_references (Some refs) (Some p) StreamNone None
  = Ok (Some (list_to_set (default [] (md_ids <$> refs !! p)))).
Proof.
  unfold get_md_references, filter_references, getitem. simpl.
  by destruct (refs !! p).
Qed.

(** X16. [get_md_references] on what [read_all_amd_references] collects:
    an ID is returned for a path exactly when [get_md_references] returns
    it for this path on the index read from one of the six reference
    files. *)
Theorem read_all_amd_references_ids (ws : string) (w : world) (p : string) :
  ∃ ids, get_md_references (Some (read_all_amd_references ws w)) (Some p)
                           StreamNone None = Ok (Some ids) ∧
         ∀ x, x ∈ ids ↔
              ∃ ref_file ids', ref_file ∈ amd_reference_files ∧
                get_md_references (read_md_references ws ref_file w) (Some p)
                                  StreamNone None = Ok (Some ids') ∧
                x ∈ ids'.
Proof.
  rewrite get_md_references_path. eexists. split; [done|]. intros x.
  rewrite elem_of_list_to_set.
  assert (∀ ref_file ids',
            get_md_references (read_md_references ws ref_file w) (Some p)
                              StreamNone None = Ok (Some ids') ∧ x ∈ ids'
            ↔ ∃ e, read_entry ws ref_file w p = Some e ∧ x ∈ md_ids e ∧
                   ids' = list_to_set (md_ids e)) as Hfile.
  { intros ref_file ids'. unfold read_entry.
    destruct (read_md_references ws ref_file w) as [refs|].
    - rewrite get_md_references_path. change (Some refs ≫= ?f) with (f refs).
      cbv beta. destruct (refs !! p) as [e|]; simpl; split.
      + intros [[= <-] Hx]. exists e. by rewrite elem_of_list_to_set in Hx.
      + intros (e' & [= <-] & Hx & ->). by rewrite elem_of_list_to_set.
      + intros [[= <-] Hx]. by apply elem_of_empty in Hx.
      + by intros (e' & [=] & _).
    - split; [by intros [[=] _]|by intros (e' & [=] & _)]. }
  pose proof (read_all_amd_references_lookup_aux ws w p) as Hlookup.
  assert (∀ e, e ∈ omap (λ ref_file, read_entry ws ref_file w p) amd_reference_files
               ↔ ∃ ref_file, ref_file ∈ amd_reference_files ∧
                             read_entry ws ref_file w p = Some e) as Hmem.
  { intros e. apply list_elem_of_omap. }
  destruct (omap _ amd_reference_files) as [|e es].
  - rewrite Hlookup. simpl. split; [by intros ?%elem_of_nil|].
    intros (ref_file & ids' & Hin & Hget).
    apply Hfile in Hget as (e & He & _). exfalso.
    eapply elem_of_nil, Hmem. eauto.
  - destruct Hlookup as (r & -> & _ & Hids & _).
    change (default [] (md_ids <$> Some r)) with (md_ids r).
    rewrite Hids, list_elem_of_join. split.
    + intros (l & Hx & Hl). apply list_elem_of_fmap in Hl as (e' & -> & He').
      apply Hmem in He' as (ref_file & Hin & He'). exists ref_file, (list_to_set (md_ids e')).
      split; [done|]. apply Hfile. by exists e'.
    + intros (ref_file & ids' & Hin & Hget). apply Hfile in Hget as (e' & He' & Hx & _).
      exists (md_ids e'). split; [done|]. apply list_elem_of_fmap. exists e'.
      split; [done|]. apply Hmem. by exists ref_file.
Qed.

End read_all.

(** ** Directories *)

Section directories.
Context `{!Externals}.

(** X17. A reference to a directory, from the writer to the readers.
    The index has one line per path and no entry for the key of the
    reference [r]; [r] has the type ["directory"], as [add_reference]
    gives it when a directory is passed, and no stream; the references of
    the batch with the same key are of this type too.  After the flush
    the index can be read, [get_objectlist] does not list the key among
    the files, and [get_md_references] with a directory finds the ID of
    [r] whenever the normalised directory is the key that was written
    (the writer does not normalise it). *)
Theorem directory_reference (self : MetsSectionCreator) (ref_file : string)
    (w : world) (r : reference) :
  let reference_file := os_path_join (workspace self) ref_file in
  let ws := workspace self in
  index_ok reference_file w →
  r ∈ references self →
  ref_path_type r = "directory" →
  stream_truthy (ref_stream r) = false →
  read_entry ws ref_file w (ref_key r) = None →
  (∀ r', r' ∈ references self → ref_key r' = ref_key r →
         ref_path_type r' = "directory") →
  ∃ w' refs l,
    write_references self ref_file w = Ok w' ∧
    read_md_references ws ref_file w' = Some refs ∧
    get_objectlist (Some refs) None = Returns (Files l) ∧
    (ref_key r ∉ l) ∧
    ∀ d, d ≠ "" → normpath d = ref_key r →
         ∃ ids, get_md_references (Some refs) None StreamNone (Some d)
                = Ok (Some ids) ∧
                ref_md_id r ∈ ids.
Proof.
  intros rf ws (Htmp & Hfmt & Hnd) Hr Htype Hstream Hnew Hsame.
  destruct (flush_entries self ref_file w Htmp Hfmt) as (w' & Hw & Hread).
  specialize (Hread (ref_key r)).
  assert (∀ r', r' ∈ refs_for (ref_key r) (references self)
                ↔ r' ∈ references self ∧ ref_key r' = ref_key r) as Hmem.
  { intros r'. unfold refs_for. rewrite list_elem_of_filter. tauto. }
  assert (r ∈ refs_for (ref_key r) (references self)) as Hin by by apply Hmem.
  destruct (refs_for (ref_key r) (references self)) as [|r0 rs] eqn:Hrefs;
    [by apply elem_of_nil in Hin|].
  fold rf in Hread. unfold rf in Hread. rewrite initial_entry_read in Hread by done.
  fold ws in Hread. rewrite Hnew in Hread. simpl default in Hread.
  assert (ref_path_type r0 = "directory") as Hr0.
  { apply Hsame; apply (Hmem r0); by left. }
  rewrite Hr0 in Hread.
  set (E := json_loads_entry (json_dump_entry
              (foldl update_entry (_setup_new_path "directory") (r0 :: rs)))) in Hread.
  assert (path_type E = "directory") as HtypeE.
  { unfold E. change (path_type (json_loads_entry (json_dump_entry ?e)))
      with (path_type e). by rewrite foldl_update_path_type. }
  assert (ref_md_id r ∈ md_ids E) as HidE.
  { unfold E. change (md_ids (json_loads_entry (json_dump_entry ?e))) with (md_ids e).
    apply foldl_update_md_ids. right. by exists r. }
  unfold read_entry in Hread.
  destruct (read_md_references ws ref_file w') as [refs|] eqn:Hrefs'; [|done].
  simpl in Hread. eexists w', refs, _. split_and!; [done|done|done| |].
  - rewrite merge_sort_Permutation, elem_of_elements, file_set_elem, elem_of_empty.
    intros [[]|(e & He & Hfile)]. apply elem_of_map_to_list in He.
    rewrite Hread in He. injection He as <-. congruence.
  - intros d Hd Hnorm. unfold get_md_references, filter_references, getitem.
    assert (negb (String.eqb d "") = true) as ->.
    { apply negb_true_iff, String.eqb_neq, Hd. }
    simpl. rewrite Hnorm, Hread. simpl_result. eexists. split; [done|].
    by apply elem_of_list_to_set.
Qed.

End directories.

(** ** Batches *)

Section batches_split.
Context `{!Externals}.

Lemma refs_for_elem (k : string) (refs : list reference) (r : reference) :
  r ∈ refs_for k refs ↔ r ∈ refs ∧ ref_key r = k.
Proof. unfold refs_for. rewrite list_elem_of_filter. tauto. Qed.

Lemma refs_for_none (k : string) (refs : list reference) (r : reference) :
  refs_for k refs = [] → r ∈ refs → ref_key r = k → False.
Proof.
  intros Hnil Hr Hk. eapply elem_of_nil. rewrite <- Hnil. by apply refs_for_elem.
Qed.

(** X18. How the references are split into batches does not matter for
    the [md_ids].  For an index with one line per path, two batches
    flushed one after the other and the two batches flushed as one leave
    indexes in which every path has the same [path_type] and the same
    IDs in [md_ids] (and the same paths have an entry). *)
Theorem flush_split (self1 self2 : MetsSectionCreator) (ref_file : string)
    (w : world) :
  let ws := workspace self1 in
  let joined := {| workspace := ws; md_elements := [];
                   references := references self1 ++ references self2 |} in
  workspace self2 = ws →
  index_ok (os_path_join ws ref_file) w →
  ∃ w1 w2 w12,
    write_references self1 ref_file w = Ok w1 ∧
    write_references self2 ref_file w1 = Ok w2 ∧
    write_references joined ref_file w = Ok w12 ∧
    ∀ k, path_type <$> read_entry ws ref_file w2 k
         = path_type <$> read_entry ws ref_file w12 k ∧
         ∀ x, x ∈ default [] (md_ids <$> read_entry ws ref_file w2 k)
              ↔ x ∈ default [] (md_ids <$> read_entry ws ref_file w12 k).
Proof.
  intros ws joined Hws Hok.
  destruct (flush_merges_entries self1 ref_file w Hok) as (w1 & Hw1 & H1).
  destruct (write_references_index_ok self1 ref_file w Hok)
    as (_ & w1' & Hw1' & Hok1).
  rewrite Hw1 in Hw1'. injection Hw1' as <-.
  destruct (flush_merges_entries self2 ref_file w1) as (w2 & Hw2 & H2);
    [by rewrite Hws|].
  destruct (flush_merges_entries joined ref_file w Hok) as (w12 & Hw12 & H12).
  exists w1, w2, w12. split_and!; [done|done|done|].
  intros k. specialize (H1 k). specialize (H2 k). specialize (H12 k).
  rewrite Hws in H2. simpl in H12. fold ws in H1, H2, H12.
  unfold refs_for in H12. rewrite filter_app in H12.
  fold (refs_for k (references self1)) in H12.
  fold (refs_for k (references self2)) in H12.
  destruct (refs_for k (references self1)) as [|rA rsA] eqn:HA;
    destruct (refs_for k (references self2)) as [|rB rsB] eqn:HB; simpl in H12.
  - rewrite H2, H1, H12. done.
  - destruct H2 as (e2 & -> & Hpt2 & Hids2).
    destruct H12 as (e12 & -> & Hpt12 & Hids12).
    rewrite H1 in Hpt2, Hids2. simpl. split; [congruence|].
    intros x. rewrite Hids2, Hids12. split.
    + intros [?|(r' & Hr' & ?)]; [by left|]. right. exists r'.
      split; [apply elem_of_app; by right|done].
    + intros [?|(r' & Hr' & Hk & ?)]; [by left|].
      apply elem_of_app in Hr' as [Hr'|Hr'].
      * destruct (refs_for_none k (references self1) r' HA Hr' Hk).
      * right. by exists r'.
  - destruct H1 as (e1 & He1 & Hpt1 & Hids1).
    destruct H12 as (e12 & -> & Hpt12 & Hids12).
    rewrite H2, He1. simpl. split; [congruence|].
    intros x. rewrite Hids1, Hids12. split.
    + intros [?|(r' & Hr' & ?)]; [by left|]. right. exists r'.
      split; [apply elem_of_app; by left|done].
    + intros [?|(r' & Hr' & Hk & ?)]; [by left|].
      apply elem_of_app in Hr' as [Hr'|Hr'].
      * right. by exists r'.
      * destruct (refs_for_none k (references self2) r' HB Hr' Hk).
  - destruct H1 as (e1 & He1 & Hpt1 & Hids1).
    destruct H2 as (e2 & -> & Hpt2 & Hids2).
    destruct H12 as (e12 & -> & Hpt12 & Hids12).
    rewrite He1 in Hpt2, Hids2. simpl in *. split; [congruence|].
    intros x. rewrite Hids2, Hids1, Hids12. split.
    + intros [[?|(r' & Hr' & ?)]|(r' & Hr' & ?)]; [by left| |]; right; exists r';
        (split; [apply elem_of_app; tauto|done]).
    + intros [?|(r' & Hr' & ?)]; [left; by left|].
      apply elem_of_app in Hr' as [Hr'|Hr'].
      * left. right. by exists r'.
      * right. by exists r'.
Qed.

(** X19. Flushing the same batch again changes nothing that
    [get_md_references] returns without a stream: for an index with one
    line per path, after the second flush every path has the
    [path_type] and the IDs in [md_ids] that it had after the first. *)
Theorem flush_again (self : MetsSectionCreator) (ref_file : string) (w : world) :
  let ws := workspace self in
  index_ok (os_path_join ws ref_file) w →
  ∃ w1 w2,
    write_references self ref_file w = Ok w1 ∧
    write_references self ref_file w1 = Ok w2 ∧
    ∀ k, path_type <$> read_entry ws ref_file w2 k
         = path_type <$> read_entry ws ref_file w1 k ∧
         ∀ x, x ∈ default [] (md_ids <$> read_entry ws ref_file w2 k)
              ↔ x ∈ default [] (md_ids <$> read_entry ws ref_file w1 k).
Proof.
  intros ws Hok.
  destruct (flush_merges_entries self ref_file w Hok) as (w1 & Hw1 & H1).
  destruct (write_references_index_ok self ref_file w Hok)
    as (_ & w1' & Hw1' & Hok1).
  rewrite Hw1 in Hw1'. injection Hw1' as <-.
  destruct (flush_merges_entries self ref_file w1 Hok1) as (w2 & Hw2 & H2).
  exists w1, w2. split_and!; [done|done|].
  intros k. specialize (H1 k). specialize (H2 k). fold ws in H1, H2.
  destruct (refs_for k (references self)) as [|r rs] eqn:Hrefs.
  - by rewrite H2.
  - destruct H1 as (e1 & He1 & Hpt1 & Hids1).
    destruct H2 as (e2 & -> & Hpt2 & Hids2).
    rewrite He1 in Hpt2, Hids2 |- *. simpl in *. split; [congruence|].
    intros x. rewrite Hids2. split; [|by left].
    intros [?|Hbatch]; [done|]. apply Hids1. by right.
Qed.

End batches_split.

(** ** The further properties on examples *)

Ltac sample_index_ok :=
  split_and!;
  [ vm_compute; reflexivity
  | vm_compute; constructor; [|constructor]; by eexists _, _
  | vm_compute; apply NoDup_singleton ].

Lemma write_references_empty_witness :
  @write_references sample_externals (init "ws") "refs.json" sample_world
  = Ok sample_world.
Proof.
  apply (@write_references_empty sample_externals (init "ws") "refs.json"
           sample_world).
  reflexivity.
Defined.


Lemma flush_adds_ids_witness :
  ∃ w' e, @write_references sample_externals sample_creator "refs.json" sample_world
          = Ok w' ∧
          read_entry "ws" "refs.json" w' "data/b.tif" = Some e ∧
          "_new" ∈ md_ids e ∧
          NoDup (md_ids e).
Proof.
  apply (@flush_adds_ids sample_externals sample_creator "refs.json" sample_world
           {| ref_md_id := "_new"; ref_stream := StreamNone;
              ref_path := PathText "data/b.tif"; ref_path_type := "file" |}).
  - vm_compute. reflexivity.
  - vm_compute. constructor; [|constructor]. by eexists _, _.
  - vm_compute. left.
  - reflexivity.
Defined.

Lemma index_ok_preserved_witness :
  index_ok "ws/refs.json" empty_world ∧
  ∃ w', @write_references sample_externals sample_creator "refs.json" sample_world
        = Ok w' ∧
        index_ok "ws/refs.json" w'.
Proof.
  apply (@index_ok_preserved sample_externals sample_creator "refs.json"
           sample_world).
  sample_index_ok.
Defined.

Lemma flush_merges_witness :
  ∃ w' e', @write_references sample_externals sample_creator "refs.json" sample_world
           = Ok w' ∧
           read_entry "ws" "refs.json" w' "data/b.tif" = Some e' ∧
           path_type e' = "file" ∧
           read_entry "ws" "refs.json" w' "data/z.tif" = None.
Proof.
  destruct (@flush_merges sample_externals sample_creator "refs.json" sample_world)
    as (w' & Hw & Hread).
  - sample_index_ok.
  - destruct (Hread "data/b.tif") as (e' & He' & Htype & _).
    exists w', e'. split_and!; [exact Hw|exact He'|exact Htype|].
    exact (Hread "data/z.tif").
Defined.

Lemma flush_stream_ids_witness :
  ∃ w' e' ids,
    @write_references sample_externals sample_creator "refs.json" sample_world
    = Ok w' ∧
    read_entry "ws" "refs.json" w' "data/c.tif" = Some e' ∧
    streams e' !! StreamStr "2" = Some ids ∧
    NoDup ids ∧
    streams e' !! StreamInt 2 = None.
Proof.
  destruct (@flush_stream_ids sample_externals sample_creator "refs.json"
              sample_world "data/c.tif" (StreamInt 2))
    as (w' & e' & ids & Hw & He' & Hids & Hnd & _ & Hint).
  - sample_index_ok.
  - reflexivity.
  - exists {| ref_md_id := "_x"; ref_stream := StreamInt 2;
              ref_path := PathText "data/c.tif"; ref_path_type := "file" |}.
    split_and!; [vm_compute; right; left|reflexivity|reflexivity].
  - intros r Hr _ Htruthy _. vm_compute in Hr.
    inversion Hr as [|? ? ? Hr']; subst; [discriminate Htruthy|].
    inversion Hr' as [|? ? ? Hr'']; subst; [reflexivity|]. inversion Hr''.
  - intros e He. vm_compute in He. discriminate He.
  - exists w', e', ids. split_and!; [exact Hw|exact He'|exact Hids|exact Hnd|].
    apply Hint. discriminate.
Defined.

Lemma int_stream_replaces_witness :
  ∃ w' e' ids,
    @write_references sample_externals stream_creator "refs.json" stream_world
    = Ok w' ∧
    read_entry "ws" "refs.json" w' "data/c.tif" = Some e' ∧
    streams e' !! StreamStr "2" = Some ids ∧
    (ids = ["_old"] ∨
     ∀ x, x ∈ ids ↔ ∃ r, r ∈ references stream_creator ∧
                         @ref_key sample_externals r = "data/c.tif" ∧
                         ref_md_id r = x).
Proof.
  apply (@int_stream_replaces sample_externals stream_creator "refs.json"
           stream_world "data/c.tif" 2
           {| path_type := "file"; streams := {[ StreamStr "2" := ["_old"] ]};
              md_ids := [] |} ["_old"]).
  - sample_index_ok.
  - lia.
  - vm_compute. reflexivity.
  - vm_compute. reflexivity.
  - eexists. split; [vm_compute; left|reflexivity].
  - intros r Hr _. vm_compute in Hr.
    inversion Hr as [|? ? ? Hr']; subst; [reflexivity|]. inversion Hr'.
Defined.

Lemma write_references_elements_witness :
  ∃ w' e, @write sample_externals element_creator "NISOIMG" "2.0" None None false
            None "refs.json" sample_world
          = Ok (init "ws", w') ∧
          read_entry "ws" "refs.json" w' "data/b.tif" = Some e ∧
          "_mix-b" ∈ md_ids e.
Proof.
  apply (@write_references_elements sample_externals element_creator "NISOIMG" "2.0"
           None None false None "refs.json" sample_world
           (@MdElement sample_externals (Elem "mix-b" [] "" [])
              (PathText "data/b.tif") StreamNone PathNone None)).
  - vm_compute. reflexivity.
  - vm_compute. constructor; [|constructor]. by eexists _, _.
  - vm_compute. right. left.
  - reflexivity.
Defined.

Lemma given_dict_carries_over_witness :
  ∃ w', @write sample_externals element_creator "NISOIMG" "2.0" None None false
          None "refs.json" sample_world
        = Ok (init "ws", w') ∧
        md_files w' !! "ws/mix-b-scraper.json" = Some "scraped".
Proof.
  apply (@given_dict_carries_over sample_externals element_creator "NISOIMG" "2.0"
           None None false None "refs.json" sample_world [] [] []
           (@MdElement sample_externals (Elem "mix-a" [] "" [])
              (PathText "data/a.tif") StreamNone PathNone (Some "scraped"))
           (@MdElement sample_externals (Elem "mix-b" [] "" [])
              (PathText "data/b.tif") StreamNone PathNone None)
           "scraped").
  - reflexivity.
  - reflexivity.
  - reflexivity.
  - intros el Hel. inversion Hel.
  - reflexivity.
  - reflexivity.
  - vm_compute. reflexivity.
  - intros el Hel. inversion Hel as [|? ? ? Hel']; subst; [|inversion Hel'].
    split; vm_compute; discriminate.
  - vm_compute. discriminate.
Defined.

Lemma directory_reference_witness :
  ∃ w' refs l,
    @write_references sample_externals directory_creator "refs.json" sample_world
    = Ok w' ∧
    read_md_references "ws" "refs.json" w' = Some refs ∧
    get_objectlist (Some refs) None = Returns (Files l) ∧
    "data/dir" ∉ l.
Proof.
  destruct (@directory_reference sample_externals directory_creator "refs.json"
              sample_world
              {| ref_md_id := "_d"; ref_stream := StreamNone;
                 ref_path := PathText "data/dir"; ref_path_type := "directory" |})
    as (w' & refs & l & Hw & Hrefs & Hl & Hnot & _).
  - sample_index_ok.
  - vm_compute. left.
  - reflexivity.
  - reflexivity.
  - vm_compute. reflexivity.
  - intros r Hr _. vm_compute in Hr.
    inversion Hr as [|? ? ? Hr']; subst; [reflexivity|]. inversion Hr'.
  - exists w', refs, l. split_and!; [exact Hw|exact Hrefs|exact Hl|exact Hnot].
Defined.

Lemma flush_split_witness :
  ∃ w1 w2 w12,
    @write_references sample_externals sample_creator "refs.json" sample_world
    = Ok w1 ∧
    @write_references sample_externals stream_creator "refs.json" w1 = Ok w2 ∧
    @write_references sample_externals
      {| workspace := "ws"; md_elements := [];
         references := references sample_creator ++ references stream_creator |}
      "refs.json" sample_world = Ok w12 ∧
    path_type <$> read_entry "ws" "refs.json" w2 "data/c.tif"
    = path_type <$> read_entry "ws" "refs.json" w12 "data/c.tif".
Proof.
  destruct (@flush_split sample_externals sample_creator stream_creator "refs.json"
              sample_world)
    as (w1 & w2 & w12 & Hw1 & Hw2 & Hw12 & Hsame).
  - reflexivity.
  - sample_index_ok.
  - exists w1, w2, w12. split_and!; [exact Hw1|exact Hw2|exact Hw12|].
    exact (proj1 (Hsame "data/c.tif")).
Defined.

Lemma flush_again_witness :
  ∃ w1 w2,
    @write_references sample_externals sample_creator "refs.json" sample_world
    = Ok w1 ∧
    @write_references sample_externals sample_creator "refs.json" w1 = Ok w2 ∧
    path_type <$> read_entry "ws" "refs.json" w2 "data/b.tif"
    = path_type <$> read_entry "ws" "refs.json" w1 "data/b.tif".
Proof.
  destruct (@flush_again sample_externals sample_creator "refs.json" sample_world)
    as (w1 & w2 & Hw1 & Hw2 & Hsame).
  - sample_index_ok.
  - exists w1, w2. split_and!; [exact Hw1|exact Hw2|].
    exact (proj1 (Hsame "data/b.tif")).
Defined.
